(** * sigpy: iterative algorithms (alg.py) and applications (app.py)

    A shallow embedding of the algorithm classes of [sigpy/alg.py] and of
    the harness and assemblers of [sigpy/app.py], with the properties of
    the specification stated and settled against it.

    Conventions.
    - A Python method is a function in the monad [M S A := S -> S * res A]:
      the object state survives an exception, exactly as a Python object
      keeps the attributes written before a [raise].
    - An attribute that is created by [init] or removed by [del] is an
      [option] field: [None] is "the attribute does not exist", reading it
      raises [AttributeError].  A Python [None] value is an inner [option].
    - Python floats are exact reals ([R]); [np.infty] and the not-a-number
      results of [x ** 0.5] on a negative [x] are the two extra values of
      [pynum].  Rounding is outside that model; module [Binary64] repeats
      the step-size rule of PrimalDualHybridGradient on binary64 numbers,
      where rounding decides the outcome.
    - The array, linear-operator and proximal-operator layers
      ([sigpy.util], [sigpy.linop], [sigpy.prox]) are not part of the
      sources; they are taken as parameters (class [ArrayOps], records
      [Linop] and [Prox]). *)

From Stdlib Require Import Reals Lra ZArith Lia String List.
From Stdlib Require PrimFloat.
From stdpp Require Import base option gmap strings.

Open Scope R_scope.

(** ** Exceptions and the method monad *)

Inductive exn : Type :=
| ValueError (msg : string)
| NameError (name : string)
| AttributeError (attr : string)
| TypeError (msg : string)
| NotImplementedError
| Unmodelled (what : string).

Inductive res (A : Type) : Type :=
| Val (a : A)
| Exn (e : exn)
| OutOfFuel.

Arguments Val {A} a.
Arguments Exn {A} e.
Arguments OutOfFuel {A}.

Definition M (S A : Type) : Type := S -> S * res A.

Definition ret {S A} (a : A) : M S A := fun s => (s, Val a).

Definition raise {S A} (e : exn) : M S A := fun s => (s, Exn e).

Definition bind {S A B} (c : M S A) (k : A -> M S B) : M S B :=
  fun s =>
    match c s with
    | (s', Val a) => k a s'
    | (s', Exn e) => (s', Exn e)
    | (s', OutOfFuel) => (s', OutOfFuel)
    end.

Definition get {S} : M S S := fun s => (s, Val s).

Definition gets {S A} (f : S -> A) : M S A := fun s => (s, Val (f s)).

Definition modify {S} (f : S -> S) : M S unit := fun s => (f s, Val tt).

Notation "'let*' x ':=' c 'in' k" := (bind c (fun x => k))
  (at level 10, x name, c at level 200, k at level 200,
   format "'[v' 'let*'  x  :=  c  'in' '/' k ']'").
Notation "c ;;; k" := (bind c (fun _ => k))
  (at level 200, k at level 200, right associativity,
   format "'[v' c  ;;; '/' k ']'").

(** [self.name] where the attribute may be missing. *)
Definition getattr {S A} (name : string) (f : S -> option A) : M S A :=
  fun s =>
    match f s with
    | Some a => (s, Val a)
    | None => (s, Exn (AttributeError name))
    end.

(** [del self.name]: the attribute must exist. *)
Definition delattr {S A} (name : string) (f : S -> option A) (clear : S -> S)
  : M S unit :=
  fun s =>
    match f s with
    | Some _ => (clear s, Val tt)
    | None => (s, Exn (AttributeError name))
    end.

(** Run an action on a component of the state ([self.alg.update()] inside
    the harness). *)
Definition zoom {S T A} (proj : S -> T) (inj : T -> S -> S) (c : M T A)
  : M S A :=
  fun s => let '(t', r) := c (proj s) in (inj t' s, r).

(** [v is None] *)
Definition is_none {B : Type} (o : option B) : bool :=
  match o with
  | None => true
  | Some _ => false
  end.

(** ** Scalars *)

Inductive pynum : Type :=
| Num (r : R)
| Infty
| NaN.

(** [x ** 0.5] for a float [x]: not-a-number below zero. *)
Definition pow_half (x : R) : pynum :=
  if Rle_dec 0 x then Num (sqrt x) else NaN.

(** [v == 0]. *)
Definition is_zero (v : pynum) : bool :=
  match v with
  | Num r => if Req_dec_T r 0 then true else false
  | Infty => false
  | NaN => false
  end.

Definition Reqb (a b : R) : bool := if Req_dec_T a b then true else false.
Definition Rltb (a b : R) : bool := if Rlt_dec a b then true else false.

(** ** The array capability (sigpy.util) *)

(** Modelled from the spec: the array capability of [sigpy.util], which is
    not among the sources: "elementwise add/scale (axpy-style scaled
    accumulation), norm and inner product, zero/random/copy construction".
    Arrays are values here; in-place mutation is modelled where an
    algorithm needs it (see [ConjugateGradient]). *)
Class ArrayOps (arr : Type) : Type := {
  shape : Type;
  shape_of : arr -> shape;
  vadd : arr -> arr -> arr;
  vsub : arr -> arr -> arr;
  vscale : R -> arr -> arr;
  vmul : arr -> arr -> arr;
  vsqrt : arr -> arr;
  dot : arr -> arr -> R;
  norm : arr -> R;
  norm2 : arr -> R;
  zeros : shape -> arr;
  randn : shape -> arr;
}.

Section Util.
Context {arr : Type} {ops : ArrayOps arr}.

(** [util.axpy(y, a, x)]: the value left in [y], [y + a * x]. *)
Definition axpy (y : arr) (a : R) (x : arr) : arr := vadd y (vscale a x).

(** [util.xpay(y, a, x)]: the value left in [y], [x + a * y]. *)
Definition xpay (y : arr) (a : R) (x : arr) : arr := vadd x (vscale a y).

Definition zeros_like (x : arr) : arr := zeros (shape_of x).
End Util.

(** Arrays of shape (2,), used to evaluate the definitions on concrete
    inputs. *)
#[export] Instance vec2_ops : ArrayOps (R * R) := {
  shape := unit;
  shape_of := fun _ => tt;
  vadd := fun a b => (fst a + fst b, snd a + snd b);
  vsub := fun a b => (fst a - fst b, snd a - snd b);
  vscale := fun c a => (c * fst a, c * snd a);
  vmul := fun a b => (fst a * fst b, snd a * snd b);
  vsqrt := fun a => (sqrt (fst a), sqrt (snd a));
  dot := fun a b => fst a * fst b + snd a * snd b;
  norm := fun a => sqrt (fst a * fst a + snd a * snd a);
  norm2 := fun a => fst a * fst a + snd a * snd a;
  zeros := fun _ => (0, 0);
  randn := fun _ => (1, 0);
}.

(** ** alg.py: the base class Alg *)

Module Alg.
Section Base.
Context {S : Type}.
Variable iter : S -> option Z.
Variable set_iter : option Z -> S -> S.
Variable max_iter : S -> Z.

(** The hooks a subclass may override. *)
Definition _init : M S unit := ret tt.

Definition _update : M S unit := raise NotImplementedError.

Definition _done : M S bool :=
  let* it := getattr "iter" iter in
  let* s := get in
  ret (max_iter s <=? it)%Z.

Definition _cleanup : M S unit := ret tt.

(** The public methods, over the hooks of the subclass.  The
    [with self.device] scope has no effect on the state. *)
Definition init (_init : M S unit) : M S unit :=
  modify (set_iter (Some 0%Z)) ;;; _init.

Definition update (_update : M S unit) : M S unit :=
  _update ;;;
  let* it := getattr "iter" iter in
  modify (set_iter (Some (it + 1)%Z)).

Definition done (_done : M S bool) : M S bool := _done.

Definition cleanup (_cleanup : M S unit) : M S unit := _cleanup.
End Base.
End Alg.

(** ** alg.py: ConjugateGradient *)

Module ConjugateGradient.
Section Defs.
Context {arr : Type} {ops : ArrayOps arr}.

(** The instance together with the arrays it refers to.  [x], [b], [r]
    and [p] are references into [mem], the store the object shares with
    its caller: [self.r = self.b] makes two names for one array. *)
Record obj : Type := mk {
  mem : gmap nat arr;
  A : arr -> arr;
  P : option (arr -> arr);
  x : nat;
  b : option (option nat);
  rzold : option pynum;
  max_iter : Z;
  iter : option Z;
  r : option nat;
  p : option nat;
  zero_gradient : option bool;
  resid : option pynum;
  alpha : option R;
}.

Definition set_mem (v : gmap nat arr) (s : obj) : obj :=
  mk v (A s) (P s) (x s) (b s) (rzold s) (max_iter s) (iter s) (r s) (p s) (zero_gradient s) (resid s) (alpha s).
Definition set_b (v : option (option nat)) (s : obj) : obj :=
  mk (mem s) (A s) (P s) (x s) v (rzold s) (max_iter s) (iter s) (r s) (p s) (zero_gradient s) (resid s) (alpha s).
Definition set_rzold (v : option pynum) (s : obj) : obj :=
  mk (mem s) (A s) (P s) (x s) (b s) v (max_iter s) (iter s) (r s) (p s) (zero_gradient s) (resid s) (alpha s).
Definition set_iter (v : option Z) (s : obj) : obj :=
  mk (mem s) (A s) (P s) (x s) (b s) (rzold s) (max_iter s) v (r s) (p s) (zero_gradient s) (resid s) (alpha s).
Definition set_r (v : option nat) (s : obj) : obj :=
  mk (mem s) (A s) (P s) (x s) (b s) (rzold s) (max_iter s) (iter s) v (p s) (zero_gradient s) (resid s) (alpha s).
Definition set_p (v : option nat) (s : obj) : obj :=
  mk (mem s) (A s) (P s) (x s) (b s) (rzold s) (max_iter s) (iter s) (r s) v (zero_gradient s) (resid s) (alpha s).
Definition set_zero_gradient (v : option bool) (s : obj) : obj :=
  mk (mem s) (A s) (P s) (x s) (b s) (rzold s) (max_iter s) (iter s) (r s) (p s) v (resid s) (alpha s).
Definition set_resid (v : option pynum) (s : obj) : obj :=
  mk (mem s) (A s) (P s) (x s) (b s) (rzold s) (max_iter s) (iter s) (r s) (p s) (zero_gradient s) v (alpha s).
Definition set_alpha (v : option R) (s : obj) : obj :=
  mk (mem s) (A s) (P s) (x s) (b s) (rzold s) (max_iter s) (iter s) (r s) (p s) (zero_gradient s) (resid s) v.

(** [ConjugateGradient(A, b, x, P, max_iter)] over the caller's store. *)
Definition new (m : gmap nat arr) (A0 : arr -> arr) (b0 : option nat)
    (x0 : nat) (P0 : option (arr -> arr)) (max_iter0 : Z) : obj :=
  mk m A0 P0 x0 (Some b0) (Some Infty) max_iter0 None None None None None
     None.

Definition load (l : nat) : M obj arr :=
  fun s =>
    match mem s !! l with
    | Some v => (s, Val v)
    | None => (s, Exn (Unmodelled "dangling array reference"))
    end.

Definition store (l : nat) (v : arr) : M obj unit :=
  modify (fun s => set_mem (<[l := v]> (mem s)) s).

(** A new array ([z.copy()], the result of [self.P(self.r)]). *)
Definition alloc (v : arr) : M obj nat :=
  fun s =>
    let l := fresh (dom (mem s)) in
    (set_mem (<[l := v]> (mem s)) s, Val l).

(** A float attribute read for arithmetic. *)
Definition finite (v : pynum) : M obj R :=
  match v with
  | Num q => ret q
  | Infty => raise (Unmodelled "arithmetic on np.infty")
  | NaN => raise (Unmodelled "arithmetic on nan")
  end.

(** The local [z] of [_init] and [_update]: [self.r] itself without a
    preconditioner, a new array [self.P(self.r)] with one. *)
Definition precondition (lr : nat) : M obj nat :=
  let* s := get in
  match P s with
  | None => ret lr
  | Some Pf => let* rv := load lr in alloc (Pf rv)
  end.

Definition _init : M obj unit :=
  let* ob := getattr "b" b in
  let* s := get in
  let* xv := load (x s) in
  match ob with
  | None =>
      raise (TypeError "unsupported operand type(s) for -=: NoneType")
  | Some lb =>
      let* bv := load lb in
      store lb (vsub bv (A s xv)) ;;;
      modify (set_b (Some (Some lb))) ;;;
      modify (set_r (Some lb)) ;;;
      let* lz := precondition lb in
      (if (1 <? max_iter s)%Z
       then let* zv := load lz in let* lp := alloc zv in modify (set_p (Some lp))
       else modify (set_p (Some lz))) ;;;
      modify (set_zero_gradient (Some false)) ;;;
      let* rv := load lb in
      let* zv := load lz in
      modify (set_rzold (Some (Num (dot rv zv)))) ;;;
      let* rz := getattr "rzold" rzold in
      let* q := finite rz in
      modify (set_resid (Some (pow_half q)))
  end.

Definition _update : M obj unit :=
  let* lp := getattr "p" p in
  let* s := get in
  let* pv := load lp in
  let Ap := A s pv in
  let pAp := dot pv Ap in
  if Reqb pAp 0 then modify (set_zero_gradient (Some true))
  else
    let* rz := getattr "rzold" rzold in
    let* q := finite rz in
    let a := q / pAp in
    modify (set_alpha (Some a)) ;;;
    let* xv := load (x s) in
    let* pv1 := load lp in
    store (x s) (axpy xv a pv1) ;;;
    let* it := getattr "iter" iter in
    (if (it <? max_iter s - 1)%Z
     then
       let* lr := getattr "r" r in
       let* rv := load lr in
       store lr (axpy rv (- a) Ap) ;;;
       let* lz := precondition lr in
       let* rv1 := load lr in
       let* zv := load lz in
       let rznew := dot rv1 zv in
       let* rz0 := getattr "rzold" rzold in
       let* q0 := finite rz0 in
       let beta := rznew / q0 in
       let* pv2 := load lp in
       store lp (xpay pv2 beta zv) ;;;
       modify (set_rzold (Some (Num rznew)))
     else ret tt) ;;;
    let* rz1 := getattr "rzold" rzold in
    let* q1 := finite rz1 in
    modify (set_resid (Some (pow_half q1))).

Definition _done : M obj bool :=
  let* it := getattr "iter" iter in
  let* s := get in
  if (max_iter s <=? it)%Z then ret true
  else
    let* zg := getattr "zero_gradient" zero_gradient in
    if zg : bool then ret true
    else let* rs := getattr "resid" resid in ret (is_zero rs).

Definition _cleanup : M obj unit :=
  delattr "r" r (set_r None) ;;;
  delattr "p" p (set_p None) ;;;
  delattr "rzold" rzold (set_rzold None).

Definition init : M obj unit := Alg.init set_iter _init.
Definition update : M obj unit := Alg.update iter set_iter _update.
Definition done : M obj bool := Alg.done _done.
Definition cleanup : M obj unit := Alg.cleanup _cleanup.
End Defs.
End ConjugateGradient.

(** ** alg.py: PowerMethod *)

Module PowerMethod.
Section Defs.
Context {arr : Type} {ops : ArrayOps arr}.

Record obj : Type := mk {
  A : arr -> arr;
  x : arr;
  max_iter : Z;
  iter : option Z;
  max_eig : option R;
}.

Definition set_x (v : arr) (s : obj) : obj :=
  mk (A s) v (max_iter s) (iter s) (max_eig s).
Definition set_iter (v : option Z) (s : obj) : obj :=
  mk (A s) (x s) (max_iter s) v (max_eig s).
Definition set_max_eig (v : option R) (s : obj) : obj :=
  mk (A s) (x s) (max_iter s) (iter s) v.

Definition new (A0 : arr -> arr) (x0 : arr) (max_iter0 : Z) : obj :=
  mk A0 x0 max_iter0 None None.

(** [xp = util.get_xp(self.x)] binds a local only. *)
Definition _init : M obj unit := ret tt.

(** [y / self.max_eig] is [vscale (/ max_eig) y]; a zero [max_eig] is
    outside the exact-arithmetic model. *)
Definition _update : M obj unit :=
  let* s := get in
  let y := A s (x s) in
  modify (set_max_eig (Some (norm y))) ;;;
  let* e := getattr "max_eig" max_eig in
  modify (set_x (vscale (/ e) y)).

Definition init : M obj unit := Alg.init set_iter _init.
Definition update : M obj unit := Alg.update iter set_iter _update.
Definition done : M obj bool := Alg.done (Alg._done iter max_iter).
Definition cleanup : M obj unit := Alg.cleanup Alg._cleanup.
End Defs.
End PowerMethod.

(** ** alg.py: ProximalPointMethod *)

Module ProximalPointMethod.
Section Defs.
Context {arr : Type} {ops : ArrayOps arr}.

Record obj : Type := mk {
  proxf : R -> arr -> arr;
  alpha : R;
  x : arr;
  max_iter : Z;
  iter : option Z;
}.

Definition set_x (v : arr) (s : obj) : obj :=
  mk (proxf s) (alpha s) v (max_iter s) (iter s).
Definition set_iter (v : option Z) (s : obj) : obj :=
  mk (proxf s) (alpha s) (x s) (max_iter s) v.

Definition new (proxf0 : R -> arr -> arr) (alpha0 : R) (x0 : arr)
    (max_iter0 : Z) : obj :=
  mk proxf0 alpha0 x0 max_iter0 None.

Definition _update : M obj unit :=
  let* s := get in
  modify (set_x (proxf s (alpha s) (x s))).

Definition init : M obj unit := Alg.init set_iter Alg._init.
Definition update : M obj unit := Alg.update iter set_iter _update.
Definition done : M obj bool := Alg.done (Alg._done iter max_iter).
Definition cleanup : M obj unit := Alg.cleanup Alg._cleanup.
End Defs.
End ProximalPointMethod.

(** ** alg.py: GradientMethod *)

Module GradientMethod.
Section Defs.
Context {arr : Type} {ops : ArrayOps arr}.

(** Arrays are values here: [gradf] and [proxg] are taken to return new
    arrays.  Module [GradientMethodInPlace] has the class with the arrays
    in a store, for callables that return the array they are given.
    [alpha] is [None] when the assembler leaves the step size to be
    derived before the first update. *)
Record obj : Type := mk {
  gradf : arr -> arr;
  alpha : option R;
  accelerate : bool;
  proxg : option (R -> arr -> arr);
  x : arr;
  max_iter : Z;
  iter : option Z;
  z : option arr;
  t : option R;
  x_old : option arr;
  resid : option pynum;
}.

Definition set_alpha (v : option R) (s : obj) : obj :=
  mk (gradf s) v (accelerate s) (proxg s) (x s) (max_iter s) (iter s) (z s) (t s) (x_old s) (resid s).
Definition set_x (v : arr) (s : obj) : obj :=
  mk (gradf s) (alpha s) (accelerate s) (proxg s) v (max_iter s) (iter s) (z s) (t s) (x_old s) (resid s).
Definition set_iter (v : option Z) (s : obj) : obj :=
  mk (gradf s) (alpha s) (accelerate s) (proxg s) (x s) (max_iter s) v (z s) (t s) (x_old s) (resid s).
Definition set_z (v : option arr) (s : obj) : obj :=
  mk (gradf s) (alpha s) (accelerate s) (proxg s) (x s) (max_iter s) (iter s) v (t s) (x_old s) (resid s).
Definition set_t (v : option R) (s : obj) : obj :=
  mk (gradf s) (alpha s) (accelerate s) (proxg s) (x s) (max_iter s) (iter s) (z s) v (x_old s) (resid s).
Definition set_x_old (v : option arr) (s : obj) : obj :=
  mk (gradf s) (alpha s) (accelerate s) (proxg s) (x s) (max_iter s) (iter s) (z s) (t s) v (resid s).
Definition set_resid (v : option pynum) (s : obj) : obj :=
  mk (gradf s) (alpha s) (accelerate s) (proxg s) (x s) (max_iter s) (iter s) (z s) (t s) (x_old s) v.

Definition new (gradf0 : arr -> arr) (x0 : arr) (alpha0 : option R)
    (proxg0 : option (R -> arr -> arr)) (accelerate0 : bool)
    (max_iter0 : Z) : obj :=
  mk gradf0 alpha0 accelerate0 proxg0 x0 max_iter0 None None None None None.

(** [self.accelerate or self.proxg is not None]. *)
Definition keeps_x_old (s : obj) : bool :=
  accelerate s || match proxg s with Some _ => true | None => false end.

(** [self.alpha] used as a number. *)
Definition step : M obj R :=
  let* s := get in
  match alpha s with
  | Some a => ret a
  | None => raise (TypeError "bad operand type for unary -: NoneType")
  end.

Definition _init : M obj unit :=
  let* s := get in
  (if accelerate s
   then modify (set_z (Some (x s))) ;;; modify (set_t (Some 1))
   else ret tt) ;;;
  (if keeps_x_old s then modify (set_x_old (Some (x s))) else ret tt) ;;;
  modify (set_resid (Some Infty)).

(** [util.move_to(dst, src)] on an attribute that must exist. *)
Definition move_to_x_old (v : arr) : M obj unit :=
  let* _ := getattr "x_old" x_old in modify (set_x_old (Some v)).

Definition move_to_z (v : arr) : M obj unit :=
  let* _ := getattr "z" z in modify (set_z (Some v)).

(** The residual of an accelerated or proximal step,
    [norm((x - x_old) / alpha ** 0.5)]: for [alpha <= 0] numpy yields
    inf or nan, never zero. *)
Definition step_resid (a : R) (xv xo : arr) : pynum :=
  if Rltb 0 a then Num (norm (vscale (/ sqrt a) (vsub xv xo))) else NaN.

Definition _update : M obj unit :=
  let* s0 := get in
  (if keeps_x_old s0 then move_to_x_old (x s0) else ret tt) ;;;
  (if accelerate s0
   then let* zv := getattr "z" z in modify (set_x zv)
   else ret tt) ;;;
  let* s1 := get in
  let gradf_x := gradf s1 (x s1) in
  let* a := step in
  modify (set_x (axpy (x s1) (- a) gradf_x)) ;;;
  (match proxg s0 with
   | Some pg => let* s2 := get in modify (set_x (pg a (x s2)))
   | None => ret tt
   end) ;;;
  (if accelerate s0
   then
     let* t_old := getattr "t" t in
     modify (set_t (Some ((1 + sqrt (1 + 4 * (t_old * t_old))) / 2))) ;;;
     let* tn := getattr "t" t in
     let* s3 := get in
     let* xo := getattr "x_old" x_old in
     move_to_z (vadd (x s3) (vscale ((t_old - 1) / tn) (vsub (x s3) xo)))
   else ret tt) ;;;
  (if keeps_x_old s0
   then
     let* s4 := get in
     let* xo := getattr "x_old" x_old in
     modify (set_resid (Some (step_resid a (x s4) xo)))
   else modify (set_resid (Some (Num (norm gradf_x))))).

Definition _done : M obj bool :=
  let* it := getattr "iter" iter in
  let* s := get in
  if (max_iter s <=? it)%Z then ret true
  else let* rs := getattr "resid" resid in ret (is_zero rs).

Definition _cleanup : M obj unit :=
  let* s := get in
  (if accelerate s
   then delattr "z" z (set_z None) ;;; delattr "t" t (set_t None)
   else ret tt) ;;;
  (if keeps_x_old s then delattr "x_old" x_old (set_x_old None)
   else ret tt).

Definition init : M obj unit := Alg.init set_iter _init.
Definition update : M obj unit := Alg.update iter set_iter _update.
Definition done : M obj bool := Alg.done _done.
Definition cleanup : M obj unit := Alg.cleanup _cleanup.
End Defs.
End GradientMethod.


(** ** alg.py: GradientMethod, with the arrays in a store *)

(** The class again, for the properties that depend on which array is
    which.  [x], [z] and [x_old] are references into [mem], the store
    the object shares with its caller and with its callables;
    [util.move_to] and [util.axpy] write into the array their first
    argument refers to; [gradf] and [proxg] are callables on the store
    that return a reference, which may be the one they were given. *)
Module GradientMethodInPlace.
Section Defs.
Context {arr : Type} {ops : ArrayOps arr}.

(** A Python function from an array to an array: from the store and the
    reference of the argument to the store afterwards and the reference
    of the result. *)
Definition callable : Type := gmap nat arr -> nat -> gmap nat arr * nat.

Record obj : Type := mk {
  mem : gmap nat arr;
  gradf : callable;
  alpha : option R;
  accelerate : bool;
  proxg : option (R -> callable);
  x : nat;
  max_iter : Z;
  iter : option Z;
  z : option nat;
  t : option R;
  x_old : option nat;
  resid : option pynum;
}.

Definition set_mem (v : gmap nat arr) (s : obj) : obj :=
  mk v (gradf s) (alpha s) (accelerate s) (proxg s) (x s) (max_iter s) (iter s) (z s) (t s) (x_old s) (resid s).
Definition set_iter (v : option Z) (s : obj) : obj :=
  mk (mem s) (gradf s) (alpha s) (accelerate s) (proxg s) (x s) (max_iter s) v (z s) (t s) (x_old s) (resid s).
Definition set_z (v : option nat) (s : obj) : obj :=
  mk (mem s) (gradf s) (alpha s) (accelerate s) (proxg s) (x s) (max_iter s) (iter s) v (t s) (x_old s) (resid s).
Definition set_t (v : option R) (s : obj) : obj :=
  mk (mem s) (gradf s) (alpha s) (accelerate s) (proxg s) (x s) (max_iter s) (iter s) (z s) v (x_old s) (resid s).
Definition set_x_old (v : option nat) (s : obj) : obj :=
  mk (mem s) (gradf s) (alpha s) (accelerate s) (proxg s) (x s) (max_iter s) (iter s) (z s) (t s) v (resid s).
Definition set_resid (v : option pynum) (s : obj) : obj :=
  mk (mem s) (gradf s) (alpha s) (accelerate s) (proxg s) (x s) (max_iter s) (iter s) (z s) (t s) (x_old s) v.

(** [GradientMethod(gradf, x, alpha, proxg, accelerate, max_iter)] over
    the caller's store. *)
Definition new (m : gmap nat arr) (gradf0 : callable) (x0 : nat)
    (alpha0 : option R) (proxg0 : option (R -> callable))
    (accelerate0 : bool) (max_iter0 : Z) : obj :=
  mk m gradf0 alpha0 accelerate0 proxg0 x0 max_iter0 None None None None
     None.

Definition load (l : nat) : M obj arr :=
  fun s =>
    match mem s !! l with
    | Some v => (s, Val v)
    | None => (s, Exn (Unmodelled "dangling array reference"))
    end.

Definition store (l : nat) (v : arr) : M obj unit :=
  modify (fun s => set_mem (<[l := v]> (mem s)) s).

(** A new array ([self.x.copy()], the value of an array expression). *)
Definition alloc (v : arr) : M obj nat :=
  fun s =>
    let l := fresh (dom (mem s)) in
    (set_mem (<[l := v]> (mem s)) s, Val l).

(** [c(arg)] *)
Definition call (c : callable) (l : nat) : M obj nat :=
  fun s => let '(m', l') := c (mem s) l in (set_mem m' s, Val l').

(** [self.accelerate or self.proxg is not None]. *)
Definition keeps_x_old (s : obj) : bool :=
  accelerate s || match proxg s with Some _ => true | None => false end.

(** [self.alpha] used as a number. *)
Definition step : M obj R :=
  let* s := get in
  match alpha s with
  | Some a => ret a
  | None => raise (TypeError "bad operand type for unary -: NoneType")
  end.

Definition _init : M obj unit :=
  let* s := get in
  (if accelerate s
   then
     let* xv := load (x s) in
     let* lz := alloc xv in
     modify (set_z (Some lz)) ;;;
     modify (set_t (Some 1))
   else ret tt) ;;;
  (if keeps_x_old s
   then
     let* xv := load (x s) in
     let* lo := alloc xv in
     modify (set_x_old (Some lo))
   else ret tt) ;;;
  modify (set_resid (Some Infty)).

Definition _update : M obj unit :=
  let* s0 := get in
  (if keeps_x_old s0
   then
     let* lo := getattr "x_old" x_old in
     let* xv := load (x s0) in
     store lo xv
   else ret tt) ;;;
  (if accelerate s0
   then
     let* lz := getattr "z" z in
     let* zv := load lz in
     store (x s0) zv
   else ret tt) ;;;
  (* gradf_x = self.gradf(self.x) *)
  let* lg := call (gradf s0) (x s0) in
  (* util.axpy(self.x, -self.alpha, gradf_x) *)
  let* a := step in
  let* xv := load (x s0) in
  let* gv := load lg in
  store (x s0) (axpy xv (- a) gv) ;;;
  (match proxg s0 with
   | Some pg =>
       let* lp := call (pg a) (x s0) in
       let* pv := load lp in
       store (x s0) pv
   | None => ret tt
   end) ;;;
  (if accelerate s0
   then
     let* t_old := getattr "t" t in
     modify (set_t (Some ((1 + sqrt (1 + 4 * (t_old * t_old))) / 2))) ;;;
     let* lz := getattr "z" z in
     let* xv1 := load (x s0) in
     let* tn := getattr "t" t in
     let* lo := getattr "x_old" x_old in
     let* xov := load lo in
     store lz (vadd xv1 (vscale ((t_old - 1) / tn) (vsub xv1 xov)))
   else ret tt) ;;;
  (if keeps_x_old s0
   then
     let* xv2 := load (x s0) in
     let* lo := getattr "x_old" x_old in
     let* xov := load lo in
     modify (set_resid (Some (GradientMethod.step_resid a xv2 xov)))
   else
     (* the array gradf returned, as it is now *)
     let* gv1 := load lg in
     modify (set_resid (Some (Num (norm gv1))))).

Definition _done : M obj bool :=
  let* it := getattr "iter" iter in
  let* s := get in
  if (max_iter s <=? it)%Z then ret true
  else let* rs := getattr "resid" resid in ret (is_zero rs).

Definition _cleanup : M obj unit :=
  let* s := get in
  (if accelerate s
   then delattr "z" z (set_z None) ;;; delattr "t" t (set_t None)
   else ret tt) ;;;
  (if keeps_x_old s then delattr "x_old" x_old (set_x_old None)
   else ret tt).

Definition init : M obj unit := Alg.init set_iter _init.
Definition update : M obj unit := Alg.update iter set_iter _update.
Definition done : M obj bool := Alg.done _done.
Definition cleanup : M obj unit := Alg.cleanup _cleanup.
End Defs.
End GradientMethodInPlace.

(** ** alg.py: NewtonsMethod *)

Module NewtonsMethod.
Section Defs.
Context {arr : Type} {ops : ArrayOps arr}.

Record obj : Type := mk {
  gradf : arr -> arr;
  hessf : arr -> arr -> arr;
  proxHg : (arr -> arr) -> arr -> arr;
  sigma : R;
  x : arr;
  lamda : pynum;
  max_iter : Z;
  iter : option Z;
}.

Definition set_x (v : arr) (s : obj) : obj :=
  mk (gradf s) (hessf s) (proxHg s) (sigma s) v (lamda s) (max_iter s) (iter s).
Definition set_lamda (v : pynum) (s : obj) : obj :=
  mk (gradf s) (hessf s) (proxHg s) (sigma s) (x s) v (max_iter s) (iter s).
Definition set_iter (v : option Z) (s : obj) : obj :=
  mk (gradf s) (hessf s) (proxHg s) (sigma s) (x s) (lamda s) (max_iter s) v.

(** [sigma] defaults to [(3 - 5 ** 0.5) / 2]. *)
Definition new (gradf0 : arr -> arr) (hessf0 : arr -> arr -> arr)
    (proxHg0 : (arr -> arr) -> arr -> arr) (x0 : arr) (max_iter0 : Z)
    (sigma0 : R) : obj :=
  mk gradf0 hessf0 proxHg0 sigma0 x0 Infty max_iter0 None.

(** The numbers bound at module level in alg.py.  The module binds
    [np], [util], [config], [cp] and its classes, and no number. *)
Definition module_globals : list (string * R) := [].

(** A bare name in a method body that is neither a local nor an
    argument. *)
Definition load_global (name : string) : M obj R :=
  match find (fun kv => String.eqb (fst kv) name) module_globals with
  | Some kv => ret (snd kv)
  | None => raise (NameError name)
  end.

Definition _update : M obj unit :=
  let* s := get in
  let hessfx := hessf s (x s) in
  let s_ := proxHg s hessfx (vsub (hessfx (x s)) (gradf s (x s))) in
  let d := vsub s_ (x s) in
  modify (set_lamda (pow_half (dot d (hessfx d)))) ;;;
  let* s1 := get in
  let* a := load_global "alpha" in
  modify (set_x (vadd (x s1) (vscale a d))).

Definition init : M obj unit := Alg.init set_iter Alg._init.
Definition update : M obj unit := Alg.update iter set_iter _update.
Definition done : M obj bool := Alg.done (Alg._done iter max_iter).
Definition cleanup : M obj unit := Alg.cleanup Alg._cleanup.
End Defs.
End NewtonsMethod.

(** ** alg.py: PrimalDualHybridGradient *)

Module PrimalDualHybridGradient.
Section Defs.
Context {arr : Type} {ops : ArrayOps arr}.

(** [tau] and [sigma] are floats here (the source also accepts
    arrays); [None] is the Python [None] an assembler passes on before
    it derives the step sizes. *)
Record obj : Type := mk {
  proxfc : R -> arr -> arr;
  proxg : R -> arr -> arr;
  gradh : option (arr -> arr);
  A : arr -> arr;
  AH : arr -> arr;
  u : arr;
  x : arr;
  tau : option R;
  sigma : option R;
  theta : R;
  gamma_primal : R;
  gamma_dual : R;
  max_iter : Z;
  iter : option Z;
  x_ext : option arr;
  u_old : option arr;
  x_old : option arr;
  resid : option pynum;
}.

Definition set_u (v : arr) (s : obj) : obj :=
  mk (proxfc s) (proxg s) (gradh s) (A s) (AH s) v (x s) (tau s) (sigma s) (theta s) (gamma_primal s) (gamma_dual s) (max_iter s) (iter s) (x_ext s) (u_old s) (x_old s) (resid s).
Definition set_x (v : arr) (s : obj) : obj :=
  mk (proxfc s) (proxg s) (gradh s) (A s) (AH s) (u s) v (tau s) (sigma s) (theta s) (gamma_primal s) (gamma_dual s) (max_iter s) (iter s) (x_ext s) (u_old s) (x_old s) (resid s).
Definition set_tau (v : option R) (s : obj) : obj :=
  mk (proxfc s) (proxg s) (gradh s) (A s) (AH s) (u s) (x s) v (sigma s) (theta s) (gamma_primal s) (gamma_dual s) (max_iter s) (iter s) (x_ext s) (u_old s) (x_old s) (resid s).
Definition set_sigma (v : option R) (s : obj) : obj :=
  mk (proxfc s) (proxg s) (gradh s) (A s) (AH s) (u s) (x s) (tau s) v (theta s) (gamma_primal s) (gamma_dual s) (max_iter s) (iter s) (x_ext s) (u_old s) (x_old s) (resid s).
Definition set_iter (v : option Z) (s : obj) : obj :=
  mk (proxfc s) (proxg s) (gradh s) (A s) (AH s) (u s) (x s) (tau s) (sigma s) (theta s) (gamma_primal s) (gamma_dual s) (max_iter s) v (x_ext s) (u_old s) (x_old s) (resid s).
Definition set_x_ext (v : option arr) (s : obj) : obj :=
  mk (proxfc s) (proxg s) (gradh s) (A s) (AH s) (u s) (x s) (tau s) (sigma s) (theta s) (gamma_primal s) (gamma_dual s) (max_iter s) (iter s) v (u_old s) (x_old s) (resid s).
Definition set_u_old (v : option arr) (s : obj) : obj :=
  mk (proxfc s) (proxg s) (gradh s) (A s) (AH s) (u s) (x s) (tau s) (sigma s) (theta s) (gamma_primal s) (gamma_dual s) (max_iter s) (iter s) (x_ext s) v (x_old s) (resid s).
Definition set_x_old (v : option arr) (s : obj) : obj :=
  mk (proxfc s) (proxg s) (gradh s) (A s) (AH s) (u s) (x s) (tau s) (sigma s) (theta s) (gamma_primal s) (gamma_dual s) (max_iter s) (iter s) (x_ext s) (u_old s) v (resid s).
Definition set_resid (v : option pynum) (s : obj) : obj :=
  mk (proxfc s) (proxg s) (gradh s) (A s) (AH s) (u s) (x s) (tau s) (sigma s) (theta s) (gamma_primal s) (gamma_dual s) (max_iter s) (iter s) (x_ext s) (u_old s) (x_old s) v.

Definition new (proxfc0 proxg0 : R -> arr -> arr) (A0 AH0 : arr -> arr)
    (x0 u0 : arr) (tau0 sigma0 : option R) (theta0 : R)
    (gradh0 : option (arr -> arr)) (gamma_primal0 gamma_dual0 : R)
    (max_iter0 : Z) : obj :=
  mk proxfc0 proxg0 gradh0 A0 AH0 u0 x0 tau0 sigma0 theta0 gamma_primal0
     gamma_dual0 max_iter0 None None None None None.

(** A step size used as a number. *)
Definition number (name : string) (v : option R) : M obj R :=
  match v with
  | Some q => ret q
  | None => raise (TypeError (name ++ " is None"))
  end.

Definition _init : M obj unit :=
  let* s := get in
  modify (set_x_ext (Some (x s))) ;;;
  modify (set_u_old (Some (u s))) ;;;
  modify (set_x_old (Some (x s))) ;;;
  Alg._init.

(** The coefficient of the rebalancing step,
    [1 / (1 + 2 * gamma * amin(abs(step))) ** 0.5]. *)
Definition rebalance (gamma step : R) : R :=
  1 / sqrt (1 + 2 * gamma * Rabs step).

(** [norm2(x_diff / tau ** 0.5) + norm2(u_diff / sigma ** 0.5)] to the
    power one half; with a step size that is not positive numpy yields
    inf or nan. *)
Definition step_resid (t sg : R) (x_diff u_diff : arr) : pynum :=
  if Rltb 0 t && Rltb 0 sg
  then pow_half (norm2 (vscale (/ sqrt t) x_diff)
                 + norm2 (vscale (/ sqrt sg) u_diff))
  else NaN.

Definition _update : M obj unit :=
  let* s0 := get in
  let* _ := getattr "u_old" u_old in
  modify (set_u_old (Some (u s0))) ;;;
  let* _ := getattr "x_old" x_old in
  modify (set_x_old (Some (x s0))) ;;;
  (* Update dual. *)
  let* xe := getattr "x_ext" x_ext in
  let delta_u := A s0 xe in
  let* sg := number "sigma" (sigma s0) in
  modify (set_u (axpy (u s0) sg delta_u)) ;;;
  let* s1 := get in
  modify (set_u (proxfc s1 sg (u s1))) ;;;
  (* Update primal. *)
  let* s2 := get in
  let delta_x :=
    match gradh s2 with
    | Some gh => vadd (AH s2 (u s2)) (gh (x s2))
    | None => AH s2 (u s2)
    end in
  let* t := number "tau" (tau s2) in
  modify (set_x (axpy (x s2) (- t) delta_x)) ;;;
  let* s3 := get in
  modify (set_x (proxg s3 t (x s3))) ;;;
  (* Update step-size if neccessary. *)
  let* th :=
    (if Rltb 0 (gamma_primal s0) && Reqb (gamma_dual s0) 0
     then
       let th := rebalance (gamma_primal s0) t in
       modify (set_tau (Some (t * th))) ;;;
       modify (set_sigma (Some (sg / th))) ;;;
       ret th
     else if Reqb (gamma_primal s0) 0 && Rltb 0 (gamma_dual s0)
     then
       let th := rebalance (gamma_dual s0) sg in
       modify (set_tau (Some (t / th))) ;;;
       modify (set_sigma (Some (sg * th))) ;;;
       ret th
     else ret (theta s0)) in
  (* Extrapolate primal. *)
  let* s4 := get in
  let* xo := getattr "x_old" x_old in
  let x_diff := vsub (x s4) xo in
  let* _ := getattr "x_ext" x_ext in
  modify (set_x_ext (Some (vadd (x s4) (vscale th x_diff)))) ;;;
  let* uo := getattr "u_old" u_old in
  let u_diff := vsub (u s4) uo in
  let* t1 := number "tau" (tau s4) in
  let* sg1 := number "sigma" (sigma s4) in
  modify (set_resid (Some (step_resid t1 sg1 x_diff u_diff))).

Definition _cleanup : M obj unit :=
  delattr "x_ext" x_ext (set_x_ext None) ;;;
  delattr "u_old" u_old (set_u_old None) ;;;
  delattr "x_old" x_old (set_x_old None).

Definition init : M obj unit := Alg.init set_iter _init.
Definition update : M obj unit := Alg.update iter set_iter _update.
Definition done : M obj bool := Alg.done (Alg._done iter max_iter).
Definition cleanup : M obj unit := Alg.cleanup _cleanup.
End Defs.
End PrimalDualHybridGradient.

(** ** alg.py: the step-size rule of PrimalDualHybridGradient on binary64 *)

(** The step sizes of the program are binary64 numbers.  This module
    repeats, on them, the lines of [PrimalDualHybridGradient._update]
    under "Update step-size if neccessary".  Every operation rounds to
    nearest; [x ** 0.5] is the square root. *)
Module Binary64.
Import PrimFloat.

(** [1 / (1 + 2 * gamma * xp.amin(xp.abs(step))) ** 0.5] for a scalar
    [step]. *)
Definition rebalance (gamma step : float) : float :=
  (1 / sqrt (1 + 2 * gamma * abs step))%float.

(** The new [tau], the new [sigma] and the coefficient [theta] of the
    extrapolation. *)
Definition update_steps (gamma_primal gamma_dual theta tau sigma : float)
  : float * float * float :=
  if ((0 <? gamma_primal)%float && (gamma_dual =? 0)%float)%bool
  then
    let th := rebalance gamma_primal tau in
    ((tau * th)%float, (sigma / th)%float, th)
  else if ((gamma_primal =? 0)%float && (0 <? gamma_dual)%float)%bool
  then
    let th := rebalance gamma_dual sigma in
    ((tau / th)%float, (sigma * th)%float, th)
  else (tau, sigma, theta).

(** The numbers 0, 1 and 2 ** -60. *)
Definition zero : float := 0%float.
Definition one : float := 1%float.
Definition two_pow_minus_60 : float := 0x1p-60%float.
End Binary64.

(** ** alg.py: AltMin *)

Module AltMin.
Section Defs.
(** The two callables act on state [W] owned by the caller. *)
Context {W : Type}.

Record obj : Type := mk {
  world : W;
  min1 : M W unit;
  min2 : M W unit;
  max_iter : Z;
  iter : option Z;
}.

Definition set_world (v : W) (s : obj) : obj :=
  mk v (min1 s) (min2 s) (max_iter s) (iter s).
Definition set_iter (v : option Z) (s : obj) : obj :=
  mk (world s) (min1 s) (min2 s) (max_iter s) v.

Definition new (w : W) (min1_0 min2_0 : M W unit) (max_iter0 : Z) : obj :=
  mk w min1_0 min2_0 max_iter0 None.

Definition _update : M obj unit :=
  let* s := get in
  zoom world set_world (min1 s) ;;;
  zoom world set_world (min2 s).

Definition init : M obj unit := Alg.init set_iter Alg._init.
Definition update : M obj unit := Alg.update iter set_iter _update.
Definition done : M obj bool := Alg.done (Alg._done iter max_iter).
Definition cleanup : M obj unit := Alg.cleanup Alg._cleanup.
End Defs.
End AltMin.

(** ** app.py: App *)

Module App.
Section Run.
Context {S Out : Type}.

(** The hooks a harness may override. *)
Record hooks : Type := mk_hooks {
  _init : M S unit;
  _pre_update : M S unit;
  _post_update : M S unit;
  _summarize : M S unit;
  _cleanup : M S unit;
  _output : M S Out;
}.

(** The methods of [self.alg], acting on the algorithm inside the
    harness state. *)
Record alg_methods : Type := mk_alg {
  alg_init : M S unit;
  alg_update : M S unit;
  alg_done : M S bool;
  alg_cleanup : M S unit;
}.

Variable h : hooks.
Variable alg : alg_methods.

Definition out_of_fuel : M S unit := fun s => (s, OutOfFuel).

(** [while(not self.alg.done()): ...], at most [fuel] tests of the
    condition. *)
Fixpoint loop (fuel : nat) : M S unit :=
  match fuel with
  | O => out_of_fuel
  | Datatypes.S n =>
      let* d := alg_done alg in
      if d : bool then ret tt
      else
        _pre_update h ;;;
        alg_update alg ;;;
        _post_update h ;;;
        _summarize h ;;;
        loop n
  end.

(** The part of [run] from the loop on. *)
Definition run_from_loop (fuel : nat) : M S Out :=
  loop fuel ;;;
  alg_cleanup alg ;;;
  _cleanup h ;;;
  _output h.

(** [App.run].  The progress bar ([show_pbar]) is display only and is
    left out. *)
Definition run (fuel : nat) : M S Out :=
  _init h ;;;
  alg_init alg ;;;
  run_from_loop fuel.
End Run.

(** The hooks of the base class: all return at once. *)
Definition base_hooks {S : Type} : @hooks S unit :=
  mk_hooks (ret tt) (ret tt) (ret tt) (ret tt) (ret tt) (ret tt).
End App.


(** ** The operator capability (sigpy.linop, sigpy.prox) *)

Section Operators.
Context {arr : Type} {ops : ArrayOps arr}.

(** Modelled from the spec: a linear operator of [sigpy.linop], which
    is not among the sources: "a callable mapping array -> array with a
    defined adjoint", composed by "sum, scalar-scale, composition,
    stacking". *)
Record Linop : Type := mk_linop {
  apply : arr -> arr;
  adjoint : arr -> arr;
  ishape : shape;
  oshape : shape;
}.

(** [L.H] *)
Definition H (L : Linop) : Linop :=
  mk_linop (adjoint L) (apply L) (oshape L) (ishape L).

(** [L1 * L2] *)
Definition Compose (L1 L2 : Linop) : Linop :=
  mk_linop (fun v => apply L1 (apply L2 v))
           (fun v => adjoint L2 (adjoint L1 v))
           (ishape L2) (oshape L1).

(** [L1 + L2] *)
Definition Add (L1 L2 : Linop) : Linop :=
  mk_linop (fun v => vadd (apply L1 v) (apply L2 v))
           (fun v => vadd (adjoint L1 v) (adjoint L2 v))
           (ishape L1) (oshape L1).

(** [a * L] for a float [a] *)
Definition Scale (a : R) (L : Linop) : Linop :=
  mk_linop (fun v => vscale a (apply L v))
           (fun v => vscale a (adjoint L v))
           (ishape L) (oshape L).

(** [linop.Identity(shape)] *)
Definition Identity (sh : shape) : Linop :=
  mk_linop (fun v => v) (fun v => v) sh sh.

(** [linop.Multiply(shape, w)] for an array [w] *)
Definition Multiply (sh : shape) (w : arr) : Linop :=
  mk_linop (vmul w) (vmul w) sh sh.

(** [linop.Multiply(shape, c)] for a float [c] *)
Definition MultiplyScalar (sh : shape) (c : R) : Linop :=
  mk_linop (vscale c) (vscale c) sh sh.

(** A proximal operator, "prox(step, point) -> array". *)
Definition Prox : Type := R -> arr -> arr.
End Operators.

Arguments Linop arr {ops}.
Arguments Prox arr : clear implicits.

(** Modelled from the spec: the stacking of operators and the proximal
    operators of [sigpy.prox] that the assemblers instantiate; neither
    module is among the sources. *)
Class OperatorOps (arr : Type) {ops : ArrayOps arr} : Type := {
  Vstack : list (Linop arr) -> Linop arr;
  L2Reg : shape -> R -> arr -> Prox arr;
  L2Proj : shape -> R -> arr -> Prox arr;
  Conj : Prox arr -> Prox arr;
  Stack : list (Prox arr) -> Prox arr;
  NoOp : shape -> Prox arr;
}.

#[export] Instance vec2_operators : OperatorOps (R * R) := {
  Vstack := fun ls =>
    match ls with
    | L :: _ => L
    | [] => Identity tt
    end;
  L2Reg := fun _ lam y0 => fun a v => vscale (/ (1 + lam * a)) (axpy v (lam * a) y0);
  L2Proj := fun _ _ _ => fun _ v => v;
  Conj := fun p => fun a v => vsub v (vscale a (p (/ a) (vscale (/ a) v)));
  Stack := fun ps =>
    match ps with
    | p :: _ => p
    | [] => fun _ v => v
    end;
  NoOp := fun _ => fun _ v => v;
}.

(** ** app.py: MaxEig *)

Module MaxEig.
Section Defs.
Context {arr : Type} {ops : ArrayOps arr}.

(** [self.x] is the array held by the algorithm. *)
Record obj : Type := mk {
  alg : PowerMethod.obj (arr := arr);
}.

Definition set_alg (v : PowerMethod.obj) (s : obj) : obj := mk v.

(** [util.empty] leaves the content unspecified; [_init] overwrites it
    before it is read. *)
Definition new (A : Linop arr) (max_iter : Z) : obj :=
  mk (PowerMethod.new (apply A) (zeros (ishape A)) max_iter).

Definition on_alg {B : Type} (c : M PowerMethod.obj B) : M obj B :=
  zoom alg set_alg c.

Definition _init : M obj unit :=
  on_alg (let* a := get in
          modify (PowerMethod.set_x (randn (shape_of (PowerMethod.x a))))).

Definition _output : M obj R :=
  on_alg (getattr "max_eig" PowerMethod.max_eig).

Definition hooks : App.hooks :=
  App.mk_hooks _init (ret tt) (ret tt) (ret tt) (ret tt) _output.

Definition alg_methods : App.alg_methods :=
  App.mk_alg (on_alg PowerMethod.init) (on_alg PowerMethod.update)
             (on_alg PowerMethod.done) (on_alg PowerMethod.cleanup).

Definition run (fuel : nat) : M obj R := App.run hooks alg_methods fuel.
End Defs.
End MaxEig.


(** ** app.py: LinearLeastSquares *)

Module LinearLeastSquares.
Section Defs.
Context {arr : Type} {ops : ArrayOps arr} {operators : OperatorOps arr}.

(** [self.alg]: one of the three algorithm classes. *)
Inductive alg_obj : Type :=
| CG (o : ConjugateGradient.obj (arr := arr))
| GM (o : GradientMethod.obj (arr := arr))
| PDHG (o : PrimalDualHybridGradient.obj (arr := arr)).

(** The attributes set by [__init__].  [R_] is the operator [R] of the
    source; [x] is the array the caller passes, which the algorithm
    holds and updates once it is built (see [x_of]); [z] is an array;
    [alg] and [objective_values] do not exist before [_get_alg] and
    [_init] create them. *)
Record obj : Type := mk {
  A : Linop arr;
  y : arr;
  x : arr;
  proxg : option (Prox arr);
  lamda : R;
  G : option (Linop arr);
  g : option (arr -> R);
  R_ : option (Linop arr);
  weights : option arr;
  mu : R;
  z : arr;
  alg_name : option string;
  max_iter : Z;
  P : option (Linop arr);
  alpha : option R;
  max_power_iter : Z;
  accelerate : bool;
  tau : option R;
  sigma : option R;
  save_objective_values : bool;
  alg : option alg_obj;
  objective_values : option (list R);
}.

Definition set_alg_name (v : option string) (s : obj) : obj :=
  mk (A s) (y s) (x s) (proxg s) (lamda s) (G s) (g s) (R_ s) (weights s) (mu s) (z s) v (max_iter s) (P s) (alpha s) (max_power_iter s) (accelerate s) (tau s) (sigma s) (save_objective_values s) (alg s) (objective_values s).
Definition set_alg (v : option alg_obj) (s : obj) : obj :=
  mk (A s) (y s) (x s) (proxg s) (lamda s) (G s) (g s) (R_ s) (weights s) (mu s) (z s) (alg_name s) (max_iter s) (P s) (alpha s) (max_power_iter s) (accelerate s) (tau s) (sigma s) (save_objective_values s) v (objective_values s).
Definition set_objective_values (v : option (list R)) (s : obj) : obj :=
  mk (A s) (y s) (x s) (proxg s) (lamda s) (G s) (g s) (R_ s) (weights s) (mu s) (z s) (alg_name s) (max_iter s) (P s) (alpha s) (max_power_iter s) (accelerate s) (tau s) (sigma s) (save_objective_values s) (alg s) v.

(** [self.alg.method()], dispatched on the class of [self.alg]. *)
Definition on_alg {B : Type} (cg : M ConjugateGradient.obj B)
    (gm : M GradientMethod.obj B) (pd : M PrimalDualHybridGradient.obj B)
  : M obj B :=
  fun s =>
    match alg s with
    | Some (CG o) => let '(o', r) := cg o in (set_alg (Some (CG o')) s, r)
    | Some (GM o) => let '(o', r) := gm o in (set_alg (Some (GM o')) s, r)
    | Some (PDHG o) =>
        let '(o', r) := pd o in (set_alg (Some (PDHG o')) s, r)
    | None => (s, Exn (AttributeError "alg"))
    end.

Definition not_this_class {T B : Type} : M T B :=
  raise (Unmodelled "attribute of another algorithm class").

Definition on_cg {B : Type} (c : M ConjugateGradient.obj B) : M obj B :=
  on_alg c not_this_class not_this_class.

Definition on_gm {B : Type} (c : M GradientMethod.obj B) : M obj B :=
  on_alg not_this_class c not_this_class.

Definition on_pdhg {B : Type} (c : M PrimalDualHybridGradient.obj B)
  : M obj B :=
  on_alg not_this_class not_this_class c.

(** [self.x], the array shared with the algorithm. *)
Definition x_of : M obj arr :=
  on_alg (let* o := get in ConjugateGradient.load (ConjugateGradient.x o))
         (gets GradientMethod.x)
         (gets PrimalDualHybridGradient.x).

(** [max_eig_app.run()] of a new [MaxEig] harness. *)
Definition max_eig (fuel : nat) (L : Linop arr) (max_iter0 : Z)
  : M obj R :=
  fun s => (s, snd (MaxEig.run fuel (MaxEig.new L max_iter0))).

(** [A.H * W * A], or [A.H * A] without weights. *)
Definition gram (s : obj) : Linop arr :=
  match weights s with
  | Some w => Compose (Compose (H (A s)) (Multiply (oshape (A s)) w)) (A s)
  | None => Compose (H (A s)) (A s)
  end.

(** The operator [AHA] that [_get_ConjugateGradient] and [_get_alpha]
    both build. *)
Definition normal_operator (s : obj) : Linop arr :=
  let I := Identity (shape_of (x s)) in
  let AHA := gram s in
  let AHA :=
    if Reqb (lamda s) 0 then AHA
    else
      match R_ s with
      | None => Add AHA (Scale (lamda s) I)
      | Some Rl => Add AHA (Compose (Scale (lamda s) (H Rl)) Rl)
      end in
  if Reqb (mu s) 0 then AHA else Add AHA (Scale (mu s) I).

(** The solution array is cell 0 of the store of the new algorithm. *)
Definition _get_ConjugateGradient : M obj unit :=
  let* s := get in
  let AHA := normal_operator s in
  modify (set_alg (Some (CG (ConjugateGradient.new
    {[ 0%nat := x s ]} (apply AHA) None 0%nat
    (option_map apply (P s)) (max_iter s))))).

(** The closure [gradf] of [_get_GradientMethod]. *)
Definition gradf (s : obj) (xv : arr) : arr :=
  let r := vsub (apply (A s) xv) (y s) in
  let r := match weights s with Some w => vmul r w | None => r end in
  let gradf_x := adjoint (A s) r in
  let gradf_x :=
    if Reqb (lamda s) 0 then gradf_x
    else
      match R_ s with
      | None => axpy gradf_x (lamda s) xv
      | Some Rl => axpy gradf_x (lamda s) (adjoint Rl (apply Rl xv))
      end in
  if Reqb (mu s) 0 then gradf_x
  else axpy gradf_x (mu s) (vsub xv (z s)).

Definition _get_GradientMethod : M obj unit :=
  let* s := get in
  modify (set_alg (Some (GM (GradientMethod.new
    (gradf s) (x s) (alpha s) (proxg s) (accelerate s) (max_iter s))))).

(** The closure [gradh] of [_get_PrimalDualHybridGradient]; it exists
    when [lamda > 0 or mu > 0].  [gradh_x = 0] followed by [+=] leaves
    the first array added. *)
Definition gradh (s : obj) (xv : arr) : arr :=
  let reg :=
    match R_ s with
    | None => vscale (lamda s) xv
    | Some Rl => vscale (lamda s) (adjoint Rl (apply Rl xv))
    end in
  let bias := vscale (mu s) (vsub xv (z s)) in
  if Rltb 0 (lamda s)
  then (if Rltb 0 (mu s) then vadd reg bias else reg)
  else (if Rltb 0 (mu s) then bias else zeros_like xv).

Definition _get_PrimalDualHybridGradient : M obj unit :=
  let* s := get in
  let '(y1, A1) :=
    match weights s with
    | Some w =>
        let weights_sqrt := vsqrt w in
        (vscale (-1) (vmul weights_sqrt (y s)),
         Compose (Multiply (oshape (A s)) weights_sqrt) (A s))
    | None => (vscale (-1) (y s), A s)
    end in
  let proxg1 :=
    match proxg s with
    | None => NoOp (shape_of (x s))
    | Some pg => pg
    end in
  let '(gradh1, gamma_primal) :=
    if Rltb 0 (lamda s) || Rltb 0 (mu s)
    then (Some (gradh s),
          match R_ s with
          | None => lamda s + mu s
          | Some _ => mu s
          end)
    else (None, 0) in
  match G s with
  | None =>
      let proxfc := L2Reg (shape_of y1) 1 y1 in
      let u := zeros_like y1 in
      modify (set_alg (Some (PDHG (PrimalDualHybridGradient.new
        proxfc proxg1 (apply A1) (adjoint A1) (x s) u (tau s) (sigma s)
        1 gradh1 gamma_primal 1 (max_iter s)))))
  | Some Gl =>
      let A2 := Vstack [A1; Gl] in
      let proxf1c := L2Reg (shape_of (y s)) 1 y1 in
      match proxg s with
      | None => raise (Unmodelled "prox.Conj(None)")
      | Some pg =>
          let proxf2c := Conj pg in
          let proxfc := Stack [proxf1c; proxf2c] in
          let proxg2 := NoOp (shape_of (x s)) in
          let u := zeros (oshape A2) in
          modify (set_alg (Some (PDHG (PrimalDualHybridGradient.new
            proxfc proxg2 (apply A2) (adjoint A2) (x s) u (tau s)
            (sigma s) 1 gradh1 gamma_primal 0 (max_iter s)))))
      end
  end.

(** The name chosen when [alg_name] is [None]. *)
Definition default_alg_name (s : obj) : string :=
  match proxg s with
  | None => "ConjugateGradient"
  | Some _ =>
      match G s with
      | None => "GradientMethod"
      | Some _ => "PrimalDualHybridGradient"
      end
  end.

Definition _get_alg : M obj unit :=
  let* s0 := get in
  (match alg_name s0 with
   | None => modify (set_alg_name (Some (default_alg_name s0)))
   | Some _ => ret tt
   end) ;;;
  let* s := get in
  let name := default "" (alg_name s) in
  if String.eqb name "ConjugateGradient" then
    match proxg s with
    | Some _ =>
        raise (ValueError "ConjugateGradient cannot have proxg specified.")
    | None => _get_ConjugateGradient
    end
  else if String.eqb name "GradientMethod" then
    match G s with
    | Some _ => raise (ValueError "GradientMethod cannot have G specified.")
    | None => _get_GradientMethod
    end
  else if String.eqb name "PrimalDualHybridGradient" then
    match R_ s with
    | Some _ =>
        raise (ValueError
          "PrimalDualHybridGradient cannot have R specified.Please consider stacking R with A.")
    | None => _get_PrimalDualHybridGradient
    end
  else raise (ValueError ("Invalid alg_name: " ++ name ++ ".")).

(** [LinearLeastSquares(...)]: the arguments are the fields of [args];
    the object is built when the result is a value. *)
Definition new (args : obj) : obj * res unit :=
  _get_alg (set_alg None (set_objective_values None args)).


(** The operator [A] of [_get_tau] and [_get_sigma]: weighted, and
    stacked with [G] when there is one. *)
Definition stacked (s : obj) : Linop arr :=
  let A1 :=
    match weights s with
    | Some w => Compose (Multiply (oshape (A s)) (vsqrt w)) (A s)
    | None => A s
    end in
  match G s with
  | Some Gl => Vstack [A1; Gl]
  | None => A1
  end.

Definition _get_alpha (fuel : nat) : M obj unit :=
  let* s := get in
  let AHA := normal_operator s in
  let* e := max_eig fuel AHA (max_power_iter s) in
  on_gm (modify (GradientMethod.set_alpha (Some (1 / e)))).

Definition _get_tau (fuel : nat) : M obj unit :=
  let* s := get in
  let A1 := stacked s in
  let* sg := on_pdhg (let* o := get in
                      PrimalDualHybridGradient.number "sigma"
                        (PrimalDualHybridGradient.sigma o)) in
  let S := MultiplyScalar (oshape A1) sg in
  let AHA := Compose (Compose (H A1) S) A1 in
  let* e := max_eig fuel AHA (max_power_iter s) in
  on_pdhg (modify (PrimalDualHybridGradient.set_tau
                     (Some (1 / (e + lamda s + mu s))))).

Definition _get_sigma (fuel : nat) : M obj unit :=
  let* s := get in
  let A1 := stacked s in
  let* t := on_pdhg (let* o := get in
                     PrimalDualHybridGradient.number "tau"
                       (PrimalDualHybridGradient.tau o)) in
  let T := MultiplyScalar (ishape A1) t in
  let AAH := Compose (Compose A1 T) (H A1) in
  let* e := max_eig fuel AAH (max_power_iter s) in
  on_pdhg (modify (PrimalDualHybridGradient.set_sigma (Some (1 / e)))).

(** [self.A.H(y)] is taken to return a new array.  An operator that
    returns its argument, such as [linop.Identity], makes [alg.b] the
    caller's [y]; which array [alg.b] is, is therefore not a property of
    this method. *)
Definition _init (fuel : nat) : M obj unit :=
  let* s := get in
  (match alg s with
   | Some (CG _) =>
       let y1 :=
         match weights s with
         | Some w => vmul w (y s)
         | None => y s
         end in
       on_cg (let* l := ConjugateGradient.alloc (adjoint (A s) y1) in
              modify (ConjugateGradient.set_b (Some (Some l))) ;;;
              if Reqb (mu s) 0 then ret tt
              else
                let* bv := ConjugateGradient.load l in
                ConjugateGradient.store l (axpy bv (mu s) (z s)))
   | Some (GM _) =>
       if is_none (alpha s) then _get_alpha fuel else ret tt
   | Some (PDHG _) =>
       (if is_none (tau s) && negb (is_none (sigma s))
        then _get_tau fuel else ret tt) ;;;
       (if negb (is_none (tau s)) && is_none (sigma s)
        then _get_sigma fuel
        else if is_none (tau s) && is_none (sigma s)
        then
          on_pdhg (modify (PrimalDualHybridGradient.set_sigma (Some 1))) ;;;
          _get_tau fuel
        else ret tt)
   | None => raise (AttributeError "alg")
   end) ;;;
  if save_objective_values s
  then modify (set_objective_values (Some []))
  else ret tt.

Definition objective : M obj R :=
  let* s := get in
  let* xv := x_of in
  let r := vsub (apply (A s) xv) (y s) in
  let r :=
    match weights s with
    | Some w => vmul r (vsqrt w)
    | None => r
    end in
  let obj := 1 / 2 * norm2 r in
  let obj :=
    if Rltb 0 (lamda s)
    then
      match R_ s with
      | None => obj + lamda s / 2 * norm2 xv
      | Some Rl => obj + lamda s / 2 * norm2 (apply Rl xv)
      end
    else obj in
  let obj :=
    if Reqb (mu s) 0 then obj
    else obj + mu s / 2 * norm2 (vsub xv (z s)) in
  match proxg s with
  | None => ret obj
  | Some _ =>
      match g s with
      | None =>
          raise (ValueError
            "Cannot compute objective when proxg is specified,but g is not.")
      | Some gf =>
          match G s with
          | None => ret (obj + gf xv)
          | Some Gl => ret (obj + gf (apply Gl xv))
          end
      end
  end.

Definition _summarize : M obj unit :=
  let* s := get in
  if save_objective_values s
  then
    let* vs := getattr "objective_values" objective_values in
    let* v := objective in
    modify (set_objective_values (Some (vs ++ [v])))
  else ret tt.

Definition _output : M obj arr := x_of.

Definition _cleanup : M obj unit :=
  let* s := get in
  match alg s with
  | Some (CG _) =>
      on_cg (delattr "b" ConjugateGradient.b (ConjugateGradient.set_b None))
  | _ => ret tt
  end.

Definition hooks (fuel : nat) : App.hooks :=
  App.mk_hooks (_init fuel) (ret tt) (ret tt) _summarize _cleanup _output.

Definition alg_methods : App.alg_methods :=
  App.mk_alg
    (on_alg ConjugateGradient.init GradientMethod.init
            PrimalDualHybridGradient.init)
    (on_alg ConjugateGradient.update GradientMethod.update
            PrimalDualHybridGradient.update)
    (on_alg ConjugateGradient.done GradientMethod.done
            PrimalDualHybridGradient.done)
    (on_alg ConjugateGradient.cleanup GradientMethod.cleanup
            PrimalDualHybridGradient.cleanup).

(** [run]; [fuel] also bounds the loops of the eigenvalue estimates
    made by [_init]. *)
Definition run (fuel : nat) : M obj arr :=
  App.run (hooks fuel) alg_methods fuel.
End Defs.
End LinearLeastSquares.

(** ** app.py: L2ConstrainedMinimization *)

Module L2ConstrainedMinimization.
Section Defs.
Context {arr : Type} {ops : ArrayOps arr} {operators : OperatorOps arr}.

(** [self.x] and [self.u] are the arrays held by the algorithm. *)
Record obj : Type := mk {
  max_eig_app : MaxEig.obj (arr := arr);
  alg : PrimalDualHybridGradient.obj (arr := arr);
}.

Definition set_max_eig_app (v : MaxEig.obj) (s : obj) : obj :=
  mk v (alg s).

Definition set_alg (v : PrimalDualHybridGradient.obj) (s : obj) : obj :=
  mk (max_eig_app s) v.

(** [MaxEig(...)] with the default [max_iter=30]; the argument [theta]
    is not passed on to the algorithm. *)
Definition new (A : Linop arr) (y x : arr) (proxg : Prox arr) (eps : R)
    (G : option (Linop arr)) (weights : option arr) (max_iter : Z)
    (tau sigma : option R) (theta : R) : obj :=
  let '(y1, A1) :=
    match weights with
    | Some w =>
        let weights_sqrt := vsqrt w in
        (vmul weights_sqrt y,
         Compose (Multiply (oshape A) weights_sqrt) A)
    | None => (y, A)
    end in
  match G with
  | None =>
      let proxfc := Conj (L2Proj (oshape A1) eps y1) in
      let u := zeros_like y1 in
      mk (MaxEig.new (Compose (H A1) A1) 30)
         (PrimalDualHybridGradient.new proxfc proxg (apply A1)
            (adjoint A1) x u tau sigma 1 None 0 0 max_iter)
  | Some Gl =>
      let AG := Vstack [A1; Gl] in
      let proxf1 := L2Proj (oshape A1) eps y1 in
      let proxfc := Conj (Stack [proxf1; proxg]) in
      let proxg1 := NoOp (ishape A1) in
      let u := zeros (oshape AG) in
      mk (MaxEig.new (Compose (H AG) AG) 30)
         (PrimalDualHybridGradient.new proxfc proxg1 (apply AG)
            (adjoint AG) x u tau sigma 1 None 0 0 max_iter)
  end.

Definition on_alg {B : Type} (c : M PrimalDualHybridGradient.obj B)
  : M obj B :=
  zoom alg set_alg c.

Definition _init (fuel : nat) : M obj unit :=
  let* s := get in
  if is_none (PrimalDualHybridGradient.tau (alg s))
     || is_none (PrimalDualHybridGradient.sigma (alg s))
  then
    on_alg (modify (PrimalDualHybridGradient.set_tau (Some 1))) ;;;
    let* e := zoom max_eig_app set_max_eig_app (MaxEig.run fuel) in
    on_alg (modify (PrimalDualHybridGradient.set_sigma (Some (1 / e))))
  else ret tt.

Definition _output : M obj arr :=
  on_alg (gets PrimalDualHybridGradient.x).

Definition hooks (fuel : nat) : App.hooks :=
  App.mk_hooks (_init fuel) (ret tt) (ret tt) (ret tt) (ret tt) _output.

Definition alg_methods : App.alg_methods :=
  App.mk_alg (on_alg PrimalDualHybridGradient.init)
             (on_alg PrimalDualHybridGradient.update)
             (on_alg PrimalDualHybridGradient.done)
             (on_alg PrimalDualHybridGradient.cleanup).

Definition run (fuel : nat) : M obj arr :=
  App.run (hooks fuel) alg_methods fuel.
End Defs.
End L2ConstrainedMinimization.

(** ** An algorithm driven by the base harness *)

(** [App(alg)] for an algorithm built by the caller: the harness state is
    the algorithm itself and every hook is the base one. *)
Definition conjugate_gradient_methods {arr : Type} {ops : ArrayOps arr}
  : App.alg_methods (S := ConjugateGradient.obj) :=
  App.mk_alg ConjugateGradient.init ConjugateGradient.update
             ConjugateGradient.done ConjugateGradient.cleanup.

Definition gradient_method_methods {arr : Type} {ops : ArrayOps arr}
  : App.alg_methods (S := GradientMethod.obj) :=
  App.mk_alg GradientMethod.init GradientMethod.update
             GradientMethod.done GradientMethod.cleanup.

Definition newtons_method_methods {arr : Type} {ops : ArrayOps arr}
  : App.alg_methods (S := NewtonsMethod.obj) :=
  App.mk_alg NewtonsMethod.init NewtonsMethod.update
             NewtonsMethod.done NewtonsMethod.cleanup.

Definition proximal_point_methods {arr : Type}
  : App.alg_methods (S := ProximalPointMethod.obj (arr := arr)) :=
  App.mk_alg ProximalPointMethod.init ProximalPointMethod.update
             ProximalPointMethod.done ProximalPointMethod.cleanup.

(** ** Concrete inputs *)

(** Arrays of shape (2,) in a store: the iterate at 0, the observation at
    1, a search direction at 2. *)
Definition cg_store (xv bv pv : R * R) : gmap nat (R * R) :=
  <[2%nat := pv]> (<[1%nat := bv]> (<[0%nat := xv]> ∅)).

(** A ConjugateGradient instance, after [init], whose search direction
    is zero. *)
Definition cg_stalled : ConjugateGradient.obj (arr := R * R) :=
  ConjugateGradient.mk (cg_store (1, 1) (0, 0) (0, 0)) (fun v => v) None
    0%nat (Some (Some 1%nat)) (Some (Num 0)) 5 (Some 0%Z) (Some 1%nat)
    (Some 2%nat) (Some false) (Some (Num 0)) None.

(** A ConjugateGradient instance, after [init] or an update, for the
    identity operator with residual and direction (1, 2). *)
Definition cg_running : ConjugateGradient.obj (arr := R * R) :=
  ConjugateGradient.mk (cg_store (0, 0) (1, 2) (1, 2)) (fun v => v) None
    0%nat (Some (Some 1%nat)) (Some (Num 5)) 5 (Some 0%Z) (Some 1%nat)
    (Some 2%nat) (Some false) (Some (Num (sqrt 5))) None.

(** ** Predicates of the statements *)

(** What an update of PrimalDualHybridGradient leaves in place: the
    iteration count advances by one, the buffers made by [init] are still
    there, and the parameters are the ones given to the constructor. *)
Definition pd_frame {arr : Type}
    (s s' : PrimalDualHybridGradient.obj (arr := arr)) (it : Z) : Prop :=
  PrimalDualHybridGradient.iter s' = Some (it + 1)%Z
  /\ is_Some (PrimalDualHybridGradient.x_ext s')
  /\ is_Some (PrimalDualHybridGradient.u_old s')
  /\ is_Some (PrimalDualHybridGradient.x_old s')
  /\ PrimalDualHybridGradient.gamma_primal s'
     = PrimalDualHybridGradient.gamma_primal s
  /\ PrimalDualHybridGradient.gamma_dual s'
     = PrimalDualHybridGradient.gamma_dual s
  /\ PrimalDualHybridGradient.theta s' = PrimalDualHybridGradient.theta s.

(** The attributes that [init] assigns, by name, as far as they exist on
    an instance. *)
Definition present {B : Type} (name : string) (o : option B) : list string :=
  if is_none o then [] else [name].

Definition gm_attrs {arr : Type} (o : GradientMethod.obj (arr := arr))
  : list string :=
  present "iter" (GradientMethod.iter o)
  ++ present "z" (GradientMethod.z o)
  ++ present "t" (GradientMethod.t o)
  ++ present "x_old" (GradientMethod.x_old o)
  ++ present "resid" (GradientMethod.resid o).







(** A PrimalDualHybridGradient instance, after [init], with unit step
    sizes and the given strong-convexity parameters. *)
Definition pdhg_example (gp gd : R)
  : PrimalDualHybridGradient.obj (arr := R * R) :=
  PrimalDualHybridGradient.mk (fun _ v => v) (fun _ v => v) None
    (fun v => v) (fun v => v) (0, 0) (1, 1) (Some 1) (Some 1) 1 gp gd 10
    (Some 0%Z) (Some (1, 1)) (Some (0, 0)) (Some (1, 1)) None.

(** A GradientMethod instance as the constructor leaves it, with
    acceleration and with no step size given. *)
Definition gm_unstepped : GradientMethod.obj (arr := R * R) :=
  GradientMethod.new (fun v => v) (1, 1) None None true 10.

(** The algorithm name [_get_alg] dispatches on: the caller's, or the
    default one. *)
Definition selected_name {arr : Type} {ops : ArrayOps arr}
    (args : LinearLeastSquares.obj (arr := arr)) : string :=
  match LinearLeastSquares.alg_name args with
  | Some n => n
  | None => LinearLeastSquares.default_alg_name args
  end.

(** Arguments of [LinearLeastSquares] over arrays of shape (2,): the
    identity as forward operator, observation (1, 2), start (0, 0), no
    weights, [lamda = mu = 0], three iterations, step size 1, no
    acceleration. *)
Definition lls_args (pg : option (Prox (R * R)))
    (Gl Rl : option (Linop (R * R))) (gf : option (R * R -> R))
    (name : option string) (save : bool)
  : LinearLeastSquares.obj (arr := R * R) :=
  LinearLeastSquares.mk (Identity tt) (1, 2) (0, 0) pg 0 Gl gf Rl None 0
    (0, 0) name 3 None (Some 1) 2 false None None save None None.

(** The instance after one update of PowerMethod from iteration [it]:
    [max_eig] is the norm of [A(x)], [x] is [A(x)] scaled by its
    inverse. *)
Definition pm_step {arr : Type} {ops : ArrayOps arr}
    (o : PowerMethod.obj (arr := arr)) (it : Z)
  : PowerMethod.obj (arr := arr) :=
  PowerMethod.mk (PowerMethod.A o)
    (vscale (/ norm (PowerMethod.A o (PowerMethod.x o)))
       (PowerMethod.A o (PowerMethod.x o)))
    (PowerMethod.max_iter o) (Some (it + 1)%Z)
    (Some (norm (PowerMethod.A o (PowerMethod.x o)))).



(** The normal equations of the least-squares problem, written out:
    [weighted] is [W], [regularizer] is [R.H R] (the identity without
    [R]). *)
Definition weighted {arr : Type} {ops : ArrayOps arr}
    (s : LinearLeastSquares.obj (arr := arr)) (u : arr) : arr :=
  match LinearLeastSquares.weights s with
  | Some w => vmul w u
  | None => u
  end.

Definition regularizer {arr : Type} {ops : ArrayOps arr}
    (s : LinearLeastSquares.obj (arr := arr)) (v : arr) : arr :=
  match LinearLeastSquares.R_ s with
  | Some Rl => adjoint Rl (apply Rl v)
  | None => v
  end.

Definition normal_lhs {arr : Type} {ops : ArrayOps arr}
    (s : LinearLeastSquares.obj (arr := arr)) (v : arr) : arr :=
  vadd
    (vadd (adjoint (LinearLeastSquares.A s)
             (weighted s (apply (LinearLeastSquares.A s) v)))
          (vscale (LinearLeastSquares.lamda s) (regularizer s v)))
    (vscale (LinearLeastSquares.mu s) v).

Definition normal_rhs {arr : Type} {ops : ArrayOps arr}
    (s : LinearLeastSquares.obj (arr := arr)) : arr :=
  vadd (adjoint (LinearLeastSquares.A s) (weighted s (LinearLeastSquares.y s)))
       (vscale (LinearLeastSquares.mu s) (LinearLeastSquares.z s)).

(** A law of the array capability: adding a multiple by zero changes
    nothing. *)
Definition zero_scale_law {arr : Type} {ops : ArrayOps arr} : Prop :=
  forall a b : arr, vadd a (vscale 0 b) = a.

(** The application the assembler builds on the gradient-method path for
    the arguments above, and an application on the primal-dual path whose
    step sizes are still to be derived. *)
Definition lls_gm_state : LinearLeastSquares.obj (arr := R * R) :=
  fst (LinearLeastSquares.new
         (lls_args (Some (fun _ v => v)) None None None None false)).


(** An accelerated GradientMethod instance after [init]. *)
Definition gm_accelerated : GradientMethod.obj (arr := R * R) :=
  GradientMethod.mk (fun v => v) (Some 1) true None (1, 1) 10 (Some 0%Z)
    (Some (1, 1)) (Some 1) (Some (1, 1)) (Some Infty).

(** The instance [cg_running] in its last iteration. *)
Definition cg_last : ConjugateGradient.obj (arr := R * R) :=
  ConjugateGradient.set_iter (Some 4%Z) cg_running.

(** A plain GradientMethod instance after [init], on a store that holds
    the iterate (1, 1), whose [gradf] returns the array it is given. *)
Definition gm_in_place : GradientMethodInPlace.obj (arr := R * R) :=
  GradientMethodInPlace.mk {[ 0%nat := (1, 1) ]} (fun m l => (m, l))
    (Some 1) false None 0%nat 10 (Some 0%Z) None None None (Some Infty).

(** * Properties *)

Lemma Reqb_true a b : Reqb a b = true <-> a = b.
Proof. unfold Reqb. destruct (Req_dec_T a b); split; congruence. Qed.

Lemma Reqb_false a b : Reqb a b = false <-> a <> b.
Proof. unfold Reqb. destruct (Req_dec_T a b); split; congruence. Qed.

Lemma Rltb_true a b : Rltb a b = true <-> a < b.
Proof. unfold Rltb. destruct (Rlt_dec a b); split; congruence. Qed.

Lemma Rltb_false a b : Rltb a b = false <-> ~ a < b.
Proof. unfold Rltb. destruct (Rlt_dec a b); split; congruence. Qed.

Lemma is_zero_Num r : is_zero (Num r) = Reqb r 0.
Proof. reflexivity. Qed.

(** ** Reasoning about methods *)

Lemma bind_val {S A B : Type} (c : M S A) (k : A -> M S B) (s s1 : S) (a : A) :
  c s = (s1, Val a) -> bind c k s = k a s1.
Proof. intros Hc. unfold bind. rewrite Hc. reflexivity. Qed.

Lemma bind_exn {S A B : Type} (c : M S A) (k : A -> M S B) (s s1 : S)
    (e : exn) :
  c s = (s1, Exn e) -> bind c k s = (s1, Exn e).
Proof. intros Hc. unfold bind. rewrite Hc. reflexivity. Qed.

Lemma alloc_fresh {V : Type} (m : gmap nat V) (l : nat) (v w : V) :
  m !! l = Some v -> <[fresh (dom m) := w]> m !! l = Some v.
Proof.
  intros Hl. rewrite lookup_insert_ne; [exact Hl|].
  intros Heq. apply (is_fresh (dom m)). rewrite Heq.
  apply elem_of_dom. eauto.
Qed.

Ltac lookup_solve :=
  repeat first
    [ eassumption
    | apply lookup_insert_eq
    | apply alloc_fresh
    | rewrite lookup_insert_ne by congruence ].

(** Evaluate a method on a symbolic state: unfold, compute, and rewrite
    with the facts known about the state. *)
Ltac mrun :=
  repeat first
    [ rewrite lookup_insert_eq
    | rewrite lookup_insert_ne by congruence
    | erewrite alloc_fresh by lookup_solve
    | match goal with H : _ = _ |- _ => rewrite H end
    | progress cbn ].

Ltac munfold :=
  repeat unfold Alg.init, Alg.update, Alg.done, Alg.cleanup, Alg._init,
    Alg._done, Alg._cleanup, zoom, bind, getattr, delattr, get, gets, modify,
    ret, raise.

(** Evaluate methods on a state given by its fields.  Only the definitions
    of the model are unfolded: tests on reals and integers and lookups in
    a store stay as they are, to be rewritten with what is known. *)
Ltac sig_eval :=
  lazy beta iota zeta delta
    [ConjugateGradient.mem ConjugateGradient.A ConjugateGradient.P
     ConjugateGradient.x ConjugateGradient.b ConjugateGradient.rzold
     ConjugateGradient.max_iter ConjugateGradient.iter ConjugateGradient.r
     ConjugateGradient.p ConjugateGradient.zero_gradient
     ConjugateGradient.resid ConjugateGradient.alpha
     ConjugateGradient.set_mem ConjugateGradient.set_b
     ConjugateGradient.set_rzold ConjugateGradient.set_iter
     ConjugateGradient.set_r ConjugateGradient.set_p
     ConjugateGradient.set_zero_gradient ConjugateGradient.set_resid
     ConjugateGradient.set_alpha ConjugateGradient.new ConjugateGradient.load
     ConjugateGradient.store ConjugateGradient.alloc ConjugateGradient.finite
     ConjugateGradient.precondition ConjugateGradient._init
     ConjugateGradient._update ConjugateGradient._done
     ConjugateGradient._cleanup ConjugateGradient.init
     ConjugateGradient.update ConjugateGradient.done
     ConjugateGradient.cleanup PowerMethod.A PowerMethod.x
     PowerMethod.max_iter PowerMethod.iter PowerMethod.max_eig
     PowerMethod.set_x PowerMethod.set_iter PowerMethod.set_max_eig
     PowerMethod.new PowerMethod._init PowerMethod._update PowerMethod.init
     PowerMethod.update PowerMethod.done PowerMethod.cleanup
     ProximalPointMethod.proxf ProximalPointMethod.alpha
     ProximalPointMethod.x ProximalPointMethod.max_iter
     ProximalPointMethod.iter ProximalPointMethod.set_x
     ProximalPointMethod.set_iter ProximalPointMethod.new
     ProximalPointMethod._update ProximalPointMethod.init
     ProximalPointMethod.update ProximalPointMethod.done
     ProximalPointMethod.cleanup GradientMethod.gradf GradientMethod.alpha
     GradientMethod.accelerate GradientMethod.proxg GradientMethod.x
     GradientMethod.max_iter GradientMethod.iter GradientMethod.z
     GradientMethod.t GradientMethod.x_old GradientMethod.resid
     GradientMethod.set_alpha GradientMethod.set_x GradientMethod.set_iter
     GradientMethod.set_z GradientMethod.set_t GradientMethod.set_x_old
     GradientMethod.set_resid GradientMethod.new GradientMethod.keeps_x_old
     GradientMethod.step GradientMethod._init GradientMethod.move_to_x_old
     GradientMethod.move_to_z GradientMethod._update GradientMethod._done
     GradientMethod._cleanup GradientMethod.init GradientMethod.update
     GradientMethod.done GradientMethod.cleanup NewtonsMethod.gradf
     NewtonsMethod.hessf NewtonsMethod.proxHg NewtonsMethod.sigma
     NewtonsMethod.x NewtonsMethod.lamda NewtonsMethod.max_iter
     NewtonsMethod.iter NewtonsMethod.set_x NewtonsMethod.set_lamda
     NewtonsMethod.set_iter NewtonsMethod.new NewtonsMethod.module_globals
     NewtonsMethod.load_global NewtonsMethod._update NewtonsMethod.init
     NewtonsMethod.update NewtonsMethod.done NewtonsMethod.cleanup
     PrimalDualHybridGradient.proxfc PrimalDualHybridGradient.proxg
     PrimalDualHybridGradient.gradh PrimalDualHybridGradient.A
     PrimalDualHybridGradient.AH PrimalDualHybridGradient.u
     PrimalDualHybridGradient.x PrimalDualHybridGradient.tau
     PrimalDualHybridGradient.sigma PrimalDualHybridGradient.theta
     PrimalDualHybridGradient.gamma_primal
     PrimalDualHybridGradient.gamma_dual PrimalDualHybridGradient.max_iter
     PrimalDualHybridGradient.iter PrimalDualHybridGradient.x_ext
     PrimalDualHybridGradient.u_old PrimalDualHybridGradient.x_old
     PrimalDualHybridGradient.resid PrimalDualHybridGradient.set_u
     PrimalDualHybridGradient.set_x PrimalDualHybridGradient.set_tau
     PrimalDualHybridGradient.set_sigma PrimalDualHybridGradient.set_iter
     PrimalDualHybridGradient.set_x_ext PrimalDualHybridGradient.set_u_old
     PrimalDualHybridGradient.set_x_old PrimalDualHybridGradient.set_resid
     PrimalDualHybridGradient.new PrimalDualHybridGradient.number
     PrimalDualHybridGradient._init PrimalDualHybridGradient._update
     PrimalDualHybridGradient._cleanup PrimalDualHybridGradient.init
     PrimalDualHybridGradient.update PrimalDualHybridGradient.done
     PrimalDualHybridGradient.cleanup AltMin.world AltMin.min1 AltMin.min2
     AltMin.max_iter AltMin.iter AltMin.set_world AltMin.set_iter AltMin.new
     AltMin._update AltMin.init AltMin.update AltMin.done AltMin.cleanup
     MaxEig.alg MaxEig.set_alg MaxEig.new MaxEig.on_alg MaxEig._init
     MaxEig._output MaxEig.hooks MaxEig.alg_methods MaxEig.run
     LinearLeastSquares.A LinearLeastSquares.y LinearLeastSquares.x
     LinearLeastSquares.proxg LinearLeastSquares.lamda LinearLeastSquares.G
     LinearLeastSquares.g LinearLeastSquares.R_ LinearLeastSquares.weights
     LinearLeastSquares.mu LinearLeastSquares.z LinearLeastSquares.alg_name
     LinearLeastSquares.max_iter LinearLeastSquares.P
     LinearLeastSquares.alpha LinearLeastSquares.max_power_iter
     LinearLeastSquares.accelerate LinearLeastSquares.tau
     LinearLeastSquares.sigma LinearLeastSquares.save_objective_values
     LinearLeastSquares.alg LinearLeastSquares.objective_values
     LinearLeastSquares.set_alg_name LinearLeastSquares.set_alg
     LinearLeastSquares.set_objective_values LinearLeastSquares.on_alg
     LinearLeastSquares.not_this_class LinearLeastSquares.on_cg
     LinearLeastSquares.on_gm LinearLeastSquares.on_pdhg
     LinearLeastSquares.x_of LinearLeastSquares.max_eig
     LinearLeastSquares._get_ConjugateGradient
     LinearLeastSquares._get_GradientMethod
     LinearLeastSquares._get_PrimalDualHybridGradient
     LinearLeastSquares.default_alg_name LinearLeastSquares._get_alg
     LinearLeastSquares.new LinearLeastSquares._get_alpha
     LinearLeastSquares._get_tau LinearLeastSquares._get_sigma
     LinearLeastSquares._init LinearLeastSquares.objective
     LinearLeastSquares._summarize LinearLeastSquares._output
     LinearLeastSquares._cleanup LinearLeastSquares.hooks
     LinearLeastSquares.alg_methods LinearLeastSquares.run
     L2ConstrainedMinimization.max_eig_app L2ConstrainedMinimization.alg
     L2ConstrainedMinimization.set_max_eig_app
     L2ConstrainedMinimization.set_alg L2ConstrainedMinimization.new
     L2ConstrainedMinimization.on_alg L2ConstrainedMinimization._init
     L2ConstrainedMinimization._output L2ConstrainedMinimization.hooks
     L2ConstrainedMinimization.alg_methods L2ConstrainedMinimization.run
     Alg.init Alg.update Alg.done Alg.cleanup Alg._init Alg._update Alg._done
     Alg._cleanup App.run App.run_from_loop App.loop App.out_of_fuel
     App.base_hooks App._init App._pre_update App._post_update App._summarize
     App._cleanup App._output App.alg_init App.alg_update App.alg_done
     App.alg_cleanup conjugate_gradient_methods gradient_method_methods
     newtons_method_methods zoom bind getattr delattr get gets modify ret
     raise is_none negb andb orb fst snd String.eqb Ascii.eqb Bool.eqb
     String.append default Datatypes.id
     option_map find present app].

Ltac sig_eval_in H :=
  lazy beta iota zeta delta
    [ConjugateGradient.mem ConjugateGradient.A ConjugateGradient.P
     ConjugateGradient.x ConjugateGradient.b ConjugateGradient.rzold
     ConjugateGradient.max_iter ConjugateGradient.iter ConjugateGradient.r
     ConjugateGradient.p ConjugateGradient.zero_gradient
     ConjugateGradient.resid ConjugateGradient.alpha
     ConjugateGradient.set_mem ConjugateGradient.set_b
     ConjugateGradient.set_rzold ConjugateGradient.set_iter
     ConjugateGradient.set_r ConjugateGradient.set_p
     ConjugateGradient.set_zero_gradient ConjugateGradient.set_resid
     ConjugateGradient.set_alpha ConjugateGradient.new ConjugateGradient.load
     ConjugateGradient.store ConjugateGradient.alloc ConjugateGradient.finite
     ConjugateGradient.precondition ConjugateGradient._init
     ConjugateGradient._update ConjugateGradient._done
     ConjugateGradient._cleanup ConjugateGradient.init
     ConjugateGradient.update ConjugateGradient.done
     ConjugateGradient.cleanup PowerMethod.A PowerMethod.x
     PowerMethod.max_iter PowerMethod.iter PowerMethod.max_eig
     PowerMethod.set_x PowerMethod.set_iter PowerMethod.set_max_eig
     PowerMethod.new PowerMethod._init PowerMethod._update PowerMethod.init
     PowerMethod.update PowerMethod.done PowerMethod.cleanup
     ProximalPointMethod.proxf ProximalPointMethod.alpha
     ProximalPointMethod.x ProximalPointMethod.max_iter
     ProximalPointMethod.iter ProximalPointMethod.set_x
     ProximalPointMethod.set_iter ProximalPointMethod.new
     ProximalPointMethod._update ProximalPointMethod.init
     ProximalPointMethod.update ProximalPointMethod.done
     ProximalPointMethod.cleanup GradientMethod.gradf GradientMethod.alpha
     GradientMethod.accelerate GradientMethod.proxg GradientMethod.x
     GradientMethod.max_iter GradientMethod.iter GradientMethod.z
     GradientMethod.t GradientMethod.x_old GradientMethod.resid
     GradientMethod.set_alpha GradientMethod.set_x GradientMethod.set_iter
     GradientMethod.set_z GradientMethod.set_t GradientMethod.set_x_old
     GradientMethod.set_resid GradientMethod.new GradientMethod.keeps_x_old
     GradientMethod.step GradientMethod._init GradientMethod.move_to_x_old
     GradientMethod.move_to_z GradientMethod._update GradientMethod._done
     GradientMethod._cleanup GradientMethod.init GradientMethod.update
     GradientMethod.done GradientMethod.cleanup NewtonsMethod.gradf
     NewtonsMethod.hessf NewtonsMethod.proxHg NewtonsMethod.sigma
     NewtonsMethod.x NewtonsMethod.lamda NewtonsMethod.max_iter
     NewtonsMethod.iter NewtonsMethod.set_x NewtonsMethod.set_lamda
     NewtonsMethod.set_iter NewtonsMethod.new NewtonsMethod.module_globals
     NewtonsMethod.load_global NewtonsMethod._update NewtonsMethod.init
     NewtonsMethod.update NewtonsMethod.done NewtonsMethod.cleanup
     PrimalDualHybridGradient.proxfc PrimalDualHybridGradient.proxg
     PrimalDualHybridGradient.gradh PrimalDualHybridGradient.A
     PrimalDualHybridGradient.AH PrimalDualHybridGradient.u
     PrimalDualHybridGradient.x PrimalDualHybridGradient.tau
     PrimalDualHybridGradient.sigma PrimalDualHybridGradient.theta
     PrimalDualHybridGradient.gamma_primal
     PrimalDualHybridGradient.gamma_dual PrimalDualHybridGradient.max_iter
     PrimalDualHybridGradient.iter PrimalDualHybridGradient.x_ext
     PrimalDualHybridGradient.u_old PrimalDualHybridGradient.x_old
     PrimalDualHybridGradient.resid PrimalDualHybridGradient.set_u
     PrimalDualHybridGradient.set_x PrimalDualHybridGradient.set_tau
     PrimalDualHybridGradient.set_sigma PrimalDualHybridGradient.set_iter
     PrimalDualHybridGradient.set_x_ext PrimalDualHybridGradient.set_u_old
     PrimalDualHybridGradient.set_x_old PrimalDualHybridGradient.set_resid
     PrimalDualHybridGradient.new PrimalDualHybridGradient.number
     PrimalDualHybridGradient._init PrimalDualHybridGradient._update
     PrimalDualHybridGradient._cleanup PrimalDualHybridGradient.init
     PrimalDualHybridGradient.update PrimalDualHybridGradient.done
     PrimalDualHybridGradient.cleanup AltMin.world AltMin.min1 AltMin.min2
     AltMin.max_iter AltMin.iter AltMin.set_world AltMin.set_iter AltMin.new
     AltMin._update AltMin.init AltMin.update AltMin.done AltMin.cleanup
     MaxEig.alg MaxEig.set_alg MaxEig.new MaxEig.on_alg MaxEig._init
     MaxEig._output MaxEig.hooks MaxEig.alg_methods MaxEig.run
     LinearLeastSquares.A LinearLeastSquares.y LinearLeastSquares.x
     LinearLeastSquares.proxg LinearLeastSquares.lamda LinearLeastSquares.G
     LinearLeastSquares.g LinearLeastSquares.R_ LinearLeastSquares.weights
     LinearLeastSquares.mu LinearLeastSquares.z LinearLeastSquares.alg_name
     LinearLeastSquares.max_iter LinearLeastSquares.P
     LinearLeastSquares.alpha LinearLeastSquares.max_power_iter
     LinearLeastSquares.accelerate LinearLeastSquares.tau
     LinearLeastSquares.sigma LinearLeastSquares.save_objective_values
     LinearLeastSquares.alg LinearLeastSquares.objective_values
     LinearLeastSquares.set_alg_name LinearLeastSquares.set_alg
     LinearLeastSquares.set_objective_values LinearLeastSquares.on_alg
     LinearLeastSquares.not_this_class LinearLeastSquares.on_cg
     LinearLeastSquares.on_gm LinearLeastSquares.on_pdhg
     LinearLeastSquares.x_of LinearLeastSquares.max_eig
     LinearLeastSquares._get_ConjugateGradient
     LinearLeastSquares._get_GradientMethod
     LinearLeastSquares._get_PrimalDualHybridGradient
     LinearLeastSquares.default_alg_name LinearLeastSquares._get_alg
     LinearLeastSquares.new LinearLeastSquares._get_alpha
     LinearLeastSquares._get_tau LinearLeastSquares._get_sigma
     LinearLeastSquares._init LinearLeastSquares.objective
     LinearLeastSquares._summarize LinearLeastSquares._output
     LinearLeastSquares._cleanup LinearLeastSquares.hooks
     LinearLeastSquares.alg_methods LinearLeastSquares.run
     L2ConstrainedMinimization.max_eig_app L2ConstrainedMinimization.alg
     L2ConstrainedMinimization.set_max_eig_app
     L2ConstrainedMinimization.set_alg L2ConstrainedMinimization.new
     L2ConstrainedMinimization.on_alg L2ConstrainedMinimization._init
     L2ConstrainedMinimization._output L2ConstrainedMinimization.hooks
     L2ConstrainedMinimization.alg_methods L2ConstrainedMinimization.run
     Alg.init Alg.update Alg.done Alg.cleanup Alg._init Alg._update Alg._done
     Alg._cleanup App.run App.run_from_loop App.loop App.out_of_fuel
     App.base_hooks App._init App._pre_update App._post_update App._summarize
     App._cleanup App._output App.alg_init App.alg_update App.alg_done
     App.alg_cleanup conjugate_gradient_methods gradient_method_methods
     newtons_method_methods zoom bind getattr delattr get gets modify ret
     raise is_none negb andb orb fst snd String.eqb Ascii.eqb Bool.eqb
     String.append default Datatypes.id
     option_map find present app] in H.


(** ** Conjugate gradient *)

Section ConjugateGradientProps.
Context {arr : Type} {ops : ArrayOps arr}.
Import ConjugateGradient.

Ltac cg_unfold :=
repeat (unfold init, update, done, cleanup, _init, _update, _done,
  _cleanup, precondition, new, finite, load, store, alloc; munfold).

Lemma cg_done_at_bound (s : @obj arr) (it : Z) :
iter s = Some it -> (max_iter s <= it)%Z -> done s = (s, Val true).
Proof.
intros Hi Hle. apply Z.leb_le in Hle. cg_unfold. mrun. reflexivity.
Qed.

Lemma cg_done_zero_gradient (s : @obj arr) (it : Z) :
iter s = Some it -> zero_gradient s = Some true -> done s = (s, Val true).
Proof.
intros Hi Hz. cg_unfold. mrun. destruct (max_iter s <=? it)%Z; mrun;
  reflexivity.
Qed.

Lemma cg_done_zero_resid (s : @obj arr) (it : Z) (zg : bool) :
iter s = Some it -> zero_gradient s = Some zg -> resid s = Some (Num 0) ->
done s = (s, Val true).
Proof.
intros Hi Hz Hr. cg_unfold. mrun.
destruct (max_iter s <=? it)%Z; destruct zg; mrun; try reflexivity.
destruct (Req_dec_T 0 0); [reflexivity | congruence].
Qed.

(** C5. When an update of ConjugateGradient meets [pAp == 0] it sets the
  zero_gradient flag and returns without raising and without changing
  x, r, p, rzold or any array; [done()] is then true, the loop of the
  harness stops at its next test and the rest of the run (cleanup of
  the algorithm and of the harness, output) returns normally.
  Likewise [done()] is true once the iteration bound is reached and
  whenever the residual is exactly 0. *)
Theorem cg_zero_curvature_is_termination
  (s : @obj arr) (lp lr : nat) (pv : arr) (it : Z) (rz : pynum) :
p s = Some lp -> mem s !! lp = Some pv -> dot pv (A s pv) = 0 ->
iter s = Some it -> r s = Some lr -> rzold s = Some rz ->
let s' := set_iter (Some (it + 1)%Z) (set_zero_gradient (Some true) s) in
update s = (s', Val tt)
/\ (x s' = x s /\ r s' = r s /\ p s' = p s /\ rzold s' = rzold s
    /\ mem s' = mem s /\ zero_gradient s' = Some true)
/\ done s' = (s', Val true)
/\ (forall n : nat,
      snd (App.run_from_loop App.base_hooks conjugate_gradient_methods
             (S n) s') = Val tt)
/\ (forall (s0 : @obj arr) (it0 : Z),
      iter s0 = Some it0 -> (max_iter s0 <= it0)%Z ->
      done s0 = (s0, Val true))
/\ (forall (s0 : @obj arr) (it0 : Z) (zg : bool),
      iter s0 = Some it0 -> zero_gradient s0 = Some zg ->
      resid s0 = Some (Num 0) -> done s0 = (s0, Val true)).
Proof.
intros Hp Hm Hd Hi Hr Hrz s'.
apply Reqb_true in Hd.
assert (Hdone : done s' = (s', Val true)).
{ apply cg_done_zero_gradient with (it := (it + 1)%Z); reflexivity. }
split; [|split; [|split; [|split; [|split]]]].
- subst s'. cg_unfold. mrun. reflexivity.
- repeat split.
- exact Hdone.
- intros n. unfold App.run_from_loop. cbn [App.loop].
  change (App.alg_done conjugate_gradient_methods) with (@done arr).
  rewrite (bind_val _ _ _ _ _ (bind_val _ _ _ _ _ Hdone)).
  subst s'. repeat (progress (cg_unfold; mrun)). reflexivity.
- exact cg_done_at_bound.
- exact cg_done_zero_resid.
Qed.
Lemma cg_init_aliases (m : gmap nat arr) (A0 : arr -> arr) (lb lx : nat)
  (P0 : option (arr -> arr)) (n : Z) (bv xv : arr) :
m !! lb = Some bv -> m !! lx = Some xv ->
exists s1 : @obj arr,
  init (new m A0 (Some lb) lx P0 n) = (s1, Val tt)
  /\ b s1 = Some (Some lb) /\ r s1 = Some lb
  /\ mem s1 !! lb = Some (vsub bv (A0 xv)).
Proof.
intros Hb Hx. cg_unfold.
destruct P0 as [Pf|]; destruct (1 <? n)%Z eqn:Hn; mrun;
  (eexists; split; [reflexivity|]; cbn; repeat split; mrun; reflexivity).
Qed.

Lemma cg_update_mutates_b (s : @obj arr) (lr lp : nat) (pv rv xv : arr)
  (q : R) (it : Z) :
b s = Some (Some lr) -> r s = Some lr -> p s = Some lp ->
lp <> lr -> x s <> lr ->
mem s !! lp = Some pv -> mem s !! lr = Some rv -> mem s !! x s = Some xv ->
rzold s = Some (Num q) -> iter s = Some it -> (it < max_iter s - 1)%Z ->
dot pv (A s pv) <> 0 ->
exists s' : @obj arr,
  update s = (s', Val tt)
  /\ b s' = Some (Some lr) /\ r s' = Some lr
  /\ mem s' !! lr = Some (axpy rv (- (q / dot pv (A s pv))) (A s pv)).
Proof.
intros Hb Hr Hp Hne1 Hne2 Hmp Hmr Hmx Hrz Hit Hlt Hd.
apply Reqb_false in Hd. apply Z.ltb_lt in Hlt.
destruct (decide (x s = lp)) as [E|E].
- assert (xv = pv) by congruence. subst xv. clear Hmx Hne2.
  cg_unfold. destruct (P s) as [Pf|] eqn:HP; mrun;
    (eexists; split; [reflexivity|]; cbn; repeat split; mrun;
     try reflexivity).
- cg_unfold. destruct (P s) as [Pf|] eqn:HP; mrun;
    (eexists; split; [reflexivity|]; cbn; repeat split; mrun;
     try reflexivity).
Qed.

(** C9. [init] of ConjugateGradient subtracts [A(x)] from the array the
  caller passed as [b], in place, and makes the residual [r] another
  name of that array: after [init] the caller's array holds
  [b - A(x)].  Every later update that modifies the residual
  ([pAp != 0], not the last permitted iteration) writes
  [r - alpha * A(p)] into that same array, which [b] still names. *)
Theorem cg_residual_aliases_b :
(forall (m : gmap nat arr) (A0 : arr -> arr) (lb lx : nat)
        (P0 : option (arr -> arr)) (n : Z) (bv xv : arr),
    m !! lb = Some bv -> m !! lx = Some xv ->
    exists s1 : @obj arr,
      init (new m A0 (Some lb) lx P0 n) = (s1, Val tt)
      /\ b s1 = Some (Some lb) /\ r s1 = Some lb
      /\ mem s1 !! lb = Some (vsub bv (A0 xv)))
/\ (forall (s : @obj arr) (lr lp : nat) (pv rv xv : arr) (q : R) (it : Z),
    b s = Some (Some lr) -> r s = Some lr -> p s = Some lp ->
    lp <> lr -> x s <> lr ->
    mem s !! lp = Some pv -> mem s !! lr = Some rv ->
    mem s !! x s = Some xv ->
    rzold s = Some (Num q) -> iter s = Some it ->
    (it < max_iter s - 1)%Z -> dot pv (A s pv) <> 0 ->
    exists s' : @obj arr,
      update s = (s', Val tt)
      /\ b s' = Some (Some lr) /\ r s' = Some lr
      /\ mem s' !! lr
         = Some (axpy rv (- (q / dot pv (A s pv))) (A s pv))).
Proof. split; [exact cg_init_aliases | exact cg_update_mutates_b]. Qed.
End ConjugateGradientProps.

Lemma cg_zero_curvature_is_termination_witness :
  ConjugateGradient.update cg_stalled
  = (ConjugateGradient.set_iter (Some 1%Z)
       (ConjugateGradient.set_zero_gradient (Some true) cg_stalled), Val tt).
Proof.
  refine (proj1 (cg_zero_curvature_is_termination cg_stalled 2%nat 1%nat
                   (0, 0) 0%Z (Num 0) _ _ _ _ _ _)).
  - reflexivity.
  - vm_compute. reflexivity.
  - cbn. lra.
  - reflexivity.
  - reflexivity.
  - reflexivity.
Defined.

Lemma cg_residual_aliases_b_witness :
  (exists s1 : ConjugateGradient.obj,
      ConjugateGradient.init
        (ConjugateGradient.new (cg_store (0, 0) (1, 2) (0, 0))
           (fun v => v) (Some 1%nat) 0%nat None 5) = (s1, Val tt)
      /\ ConjugateGradient.b s1 = Some (Some 1%nat)
      /\ ConjugateGradient.r s1 = Some 1%nat
      /\ ConjugateGradient.mem s1 !! 1%nat = Some (vsub (1, 2) (0, 0)))
  /\ (exists s' : ConjugateGradient.obj,
      ConjugateGradient.update cg_running = (s', Val tt)
      /\ ConjugateGradient.b s' = Some (Some 1%nat)
      /\ ConjugateGradient.r s' = Some 1%nat
      /\ ConjugateGradient.mem s' !! 1%nat
         = Some (axpy (1, 2) (- (5 / dot (1, 2) (1, 2))) (1, 2))).
Proof.
  split.
  - refine (proj1 cg_residual_aliases_b (cg_store (0, 0) (1, 2) (0, 0))
              (fun v => v) 1%nat 0%nat None 5%Z (1, 2) (0, 0) _ _);
      vm_compute; reflexivity.
  - refine (proj2 cg_residual_aliases_b cg_running 1%nat 2%nat (1, 2) (1, 2)
              (0, 0) 5 0%Z _ _ _ _ _ _ _ _ _ _ _ _);
      try reflexivity; try (vm_compute; reflexivity); try (cbn; lia).
    cbn. lra.
Defined.

(** ** Newton's method *)

Section NewtonsMethodProps.
Context {arr : Type} {ops : ArrayOps arr}.
Import NewtonsMethod.

(** C7. Every update of NewtonsMethod computes the Hessian-based proximal
    step [s], the direction [d = s - x] and the Newton decrement
    [lamda = (d . hessf(x)(d)) ** 0.5], and then fails: the statement
    that advances [x] along [d] reads the name [alpha], which is bound
    nowhere, so the update raises NameError with [x] and the iteration
    count unchanged, and a run of the harness with a positive iteration
    bound raises it from the first update. *)
Theorem newton_update_raises_name_error (o : @obj arr) :
  let hessfx := hessf o (x o) in
  let d := vsub (proxHg o hessfx (vsub (hessfx (x o)) (gradf o (x o)))) (x o) in
  update o = (set_lamda (pow_half (dot d (hessfx d))) o,
              Exn (NameError "alpha"))
  /\ x (fst (update o)) = x o
  /\ iter (fst (update o)) = iter o
  /\ forall n : nat,
       (0 < max_iter o)%Z ->
       snd (App.run App.base_hooks newtons_method_methods (S n) o)
       = Exn (NameError "alpha").
Proof.
  cbv zeta. repeat split.
  intros n Hpos. apply Z.leb_gt in Hpos.
  unfold App.run, App.run_from_loop. cbn.
  unfold bind at 1. cbn.
  destruct o as [gf hf ph sg0 x0 l0 mi it0]. cbn in *.
  unfold Alg._done, Alg.update, _update, load_global, bind, getattr, get,
    modify, ret, raise. cbn. rewrite Hpos. reflexivity.
Qed.
End NewtonsMethodProps.

Lemma newton_update_raises_name_error_witness :
  snd (App.run App.base_hooks newtons_method_methods 1
         (NewtonsMethod.new (arr := R * R) (fun v => v) (fun _ v => v)
            (fun _ v => v) (1, 1) 10 ((3 - sqrt 5) / 2)))
  = Exn (NameError "alpha").
Proof.
  refine (proj2 (proj2 (proj2 (newton_update_raises_name_error _))) 0%nat _).
  reflexivity.
Defined.

(** ** Primal-dual hybrid gradient *)

Section PrimalDualProps.
Context {arr : Type} {ops : ArrayOps arr}.
Import PrimalDualHybridGradient.

(** Evaluate the methods on a state given by its fields; the tests on
    reals stay as they are, to be rewritten with what is known. *)
Ltac pd_eval :=
  lazy beta iota zeta delta
    [init update done cleanup _init _update _cleanup number new proxfc
     proxg gradh A AH u x tau sigma theta gamma_primal gamma_dual max_iter
     iter x_ext u_old x_old resid set_u set_x set_tau set_sigma set_iter
     set_x_ext set_u_old set_x_old set_resid Alg.init Alg.update Alg.done
     Alg.cleanup Alg._init Alg._done Alg._cleanup zoom bind getattr delattr
     get gets modify ret raise].

Lemma rebalance_bounds (gamma step : R) :
  0 < gamma -> 0 < step ->
  0 < rebalance gamma step /\ rebalance gamma step < 1.
Proof.
  intros Hg Hs. unfold rebalance.
  rewrite (Rabs_pos_eq step) by lra.
  assert (Hgt : 1 < 1 + 2 * gamma * step) by nra.
  assert (Hsq : 1 < sqrt (1 + 2 * gamma * step)).
  { rewrite <- sqrt_1 at 1. apply sqrt_lt_1; lra. }
  split.
  - apply Rdiv_lt_0_compat; lra.
  - apply Rmult_lt_reg_r with (r := sqrt (1 + 2 * gamma * step)); [lra|].
    unfold Rdiv. rewrite Rmult_assoc, Rinv_l by lra. lra.
Qed.

Lemma shrink_by (c th : R) : 0 < c -> 0 < th -> th < 1 -> 0 < c * th < c.
Proof. intros. split; nra. Qed.

Lemma grow_by (c th : R) : 0 < c -> 0 < th -> th < 1 -> c < c / th.
Proof.
  intros Hc Hth Hlt.
  apply Rmult_lt_reg_r with (r := th); [exact Hth|].
  unfold Rdiv. rewrite Rmult_assoc, Rinv_l by lra. nra.
Qed.

Lemma Reqb_refl (a : R) : Reqb a a = true.
Proof. apply Reqb_true. reflexivity. Qed.

Lemma Rltb_irrefl (a : R) : Rltb a a = false.
Proof. apply Rltb_false. lra. Qed.

Ltac pd_run :=
  repeat (pd_eval;
          rewrite ?Reqb_refl, ?Rltb_irrefl;
          repeat match goal with H : _ = _ |- _ => rewrite H end;
          cbn [andb]).

Lemma pdhg_update_primal (s : @obj arr) (t sg : R) (it : Z) (xe uo xo : arr) :
  x_ext s = Some xe -> u_old s = Some uo -> x_old s = Some xo ->
  iter s = Some it -> tau s = Some t -> sigma s = Some sg ->
  0 < gamma_primal s -> gamma_dual s = 0 ->
  exists s' : @obj arr,
    update s = (s', Val tt) /\ pd_frame s s' it
    /\ tau s' = Some (t * rebalance (gamma_primal s) t)
    /\ sigma s' = Some (sg / rebalance (gamma_primal s) t).
Proof.
  intros Hxe Huo Hxo Hit Ht Hsg Hgp Hgd.
  destruct s as [pfc pg gh A0 AH0 u0 x0 tau0 sigma0 th0 gp gd mi it0 xe0 uo0
                 xo0 rs0].
  cbn in Hxe, Huo, Hxo, Hit, Ht, Hsg, Hgp, Hgd. subst.
  apply Rltb_true in Hgp. unfold pd_frame.
  destruct gh as [gh|]; pd_run;
    (eexists; split; [reflexivity|]; cbn; repeat split; eauto).
Qed.

Lemma pdhg_update_dual (s : @obj arr) (t sg : R) (it : Z) (xe uo xo : arr) :
  x_ext s = Some xe -> u_old s = Some uo -> x_old s = Some xo ->
  iter s = Some it -> tau s = Some t -> sigma s = Some sg ->
  gamma_primal s = 0 -> 0 < gamma_dual s ->
  exists s' : @obj arr,
    update s = (s', Val tt) /\ pd_frame s s' it
    /\ tau s' = Some (t / rebalance (gamma_dual s) sg)
    /\ sigma s' = Some (sg * rebalance (gamma_dual s) sg).
Proof.
  intros Hxe Huo Hxo Hit Ht Hsg Hgp Hgd.
  destruct s as [pfc pg gh A0 AH0 u0 x0 tau0 sigma0 th0 gp gd mi it0 xe0 uo0
                 xo0 rs0].
  cbn in Hxe, Huo, Hxo, Hit, Ht, Hsg, Hgp, Hgd. subst.
  apply Rltb_true in Hgd. unfold pd_frame.
  destruct gh as [gh|]; pd_run;
    (eexists; split; [reflexivity|]; cbn; repeat split; eauto).
Qed.

Lemma pdhg_update_plain (s : @obj arr) (t sg : R) (it : Z) (xe uo xo : arr) :
  x_ext s = Some xe -> u_old s = Some uo -> x_old s = Some xo ->
  iter s = Some it -> tau s = Some t -> sigma s = Some sg ->
  gamma_primal s = 0 -> gamma_dual s = 0 ->
  exists s' : @obj arr,
    update s = (s', Val tt) /\ pd_frame s s' it
    /\ tau s' = Some t /\ sigma s' = Some sg
    /\ x_ext s'
       = Some (vadd (x s') (vscale (theta s) (vsub (x s') (x s)))).
Proof.
  intros Hxe Huo Hxo Hit Ht Hsg Hgp Hgd.
  destruct s as [pfc pg gh A0 AH0 u0 x0 tau0 sigma0 th0 gp gd mi it0 xe0 uo0
                 xo0 rs0].
  cbn in Hxe, Huo, Hxo, Hit, Ht, Hsg, Hgp, Hgd. subst. unfold pd_frame.
  destruct gh as [gh|]; pd_run;
    (eexists; split; [reflexivity|]; cbn; repeat split; eauto).
Qed.
(** C4, as amended.  With [gamma_primal > 0] and [gamma_dual == 0] an
    update of PrimalDualHybridGradient with positive scalar step sizes
    multiplies [tau] and divides [sigma] by
    [theta = 1 / (1 + 2 * gamma_primal * |tau|) ** 0.5]; with
    [gamma_dual > 0] and [gamma_primal == 0] it divides [tau] and
    multiplies [sigma] by [theta = 1 / (1 + 2 * gamma_dual * |sigma|) **
    0.5]; with both zero [tau] and [sigma] are unchanged and the
    extrapolation uses the [theta] of the constructor.  In exact
    arithmetic [theta] lies strictly between 0 and 1, so that the one
    step size strictly decreases and the other strictly increases.  In
    binary64 arithmetic this is not so at every update: there are
    positive parameters and step sizes for which [theta] is exactly 1 and
    the update leaves [tau] and [sigma] as they are. *)
Theorem pdhg_step_rebalancing :
  (forall (s : @obj arr) (t sg : R) (it : Z) (xe uo xo : arr),
      x_ext s = Some xe -> u_old s = Some uo -> x_old s = Some xo ->
      iter s = Some it -> tau s = Some t -> sigma s = Some sg ->
      0 < t -> 0 < sg ->
      (0 < gamma_primal s -> gamma_dual s = 0 ->
       let th := 1 / sqrt (1 + 2 * gamma_primal s * Rabs t) in
       exists s' : @obj arr,
         update s = (s', Val tt) /\ pd_frame s s' it
         /\ 0 < th < 1
         /\ tau s' = Some (t * th) /\ sigma s' = Some (sg / th)
         /\ 0 < t * th < t /\ sg < sg / th)
      /\ (gamma_primal s = 0 -> 0 < gamma_dual s ->
          let th := 1 / sqrt (1 + 2 * gamma_dual s * Rabs sg) in
          exists s' : @obj arr,
            update s = (s', Val tt) /\ pd_frame s s' it
            /\ 0 < th < 1
            /\ tau s' = Some (t / th) /\ sigma s' = Some (sg * th)
            /\ t < t / th /\ 0 < sg * th < sg)
      /\ (gamma_primal s = 0 -> gamma_dual s = 0 ->
          exists s' : @obj arr,
            update s = (s', Val tt) /\ pd_frame s s' it
            /\ tau s' = Some t /\ sigma s' = Some sg
            /\ x_ext s'
               = Some (vadd (x s') (vscale (theta s) (vsub (x s') (x s))))))
  /\ (exists gamma step other : PrimFloat.float,
         PrimFloat.ltb Binary64.zero gamma = true
         /\ PrimFloat.ltb Binary64.zero step = true
         /\ PrimFloat.ltb Binary64.zero other = true
         /\ Binary64.update_steps gamma Binary64.zero Binary64.one step other
            = (step, other, Binary64.one)
         /\ Binary64.update_steps Binary64.zero gamma Binary64.one other step
            = (other, step, Binary64.one)).
Proof.
  split.
  - intros s t sg it xe uo xo Hxe Huo Hxo Hit Ht Hsg Htpos Hsgpos.
    split; [|split].
    + intros Hgp Hgd th.
      destruct (pdhg_update_primal s t sg it xe uo xo)
        as (s' & Hu & Hf & Ht' & Hs'); try assumption.
      destruct (rebalance_bounds (gamma_primal s) t Hgp Htpos)
        as [Hth0 Hth1].
      exists s'.
      split; [exact Hu|]. split; [exact Hf|].
      split; [split; assumption|].
      split; [exact Ht'|]. split; [exact Hs'|].
      split; [apply shrink_by | apply grow_by]; assumption.
    + intros Hgp Hgd th.
      destruct (pdhg_update_dual s t sg it xe uo xo)
        as (s' & Hu & Hf & Ht' & Hs'); try assumption.
      destruct (rebalance_bounds (gamma_dual s) sg Hgd Hsgpos)
        as [Hth0 Hth1].
      exists s'.
      split; [exact Hu|]. split; [exact Hf|].
      split; [split; assumption|].
      split; [exact Ht'|]. split; [exact Hs'|].
      split; [apply grow_by | apply shrink_by]; assumption.
    + intros Hgp Hgd.
      exact (pdhg_update_plain s t sg it xe uo xo Hxe Huo Hxo Hit Ht Hsg
               Hgp Hgd).
  - exists Binary64.two_pow_minus_60, Binary64.one, Binary64.one.
    repeat split; vm_compute; reflexivity.
Qed.

(** The step sizes are rebalanced in the two cases above and in no
    other: with positive step sizes, whenever neither
    [gamma_primal > 0 and gamma_dual == 0] nor
    [gamma_primal == 0 and gamma_dual > 0] holds, for instance when both
    parameters are positive, an update leaves [tau] and [sigma] as they
    are and extrapolates with the constructor's [theta]. *)
Theorem pdhg_no_rebalancing_otherwise
    (s : @obj arr) (t sg : R) (it : Z) (xe uo xo : arr) :
  x_ext s = Some xe -> u_old s = Some uo -> x_old s = Some xo ->
  iter s = Some it -> tau s = Some t -> sigma s = Some sg ->
  0 < t -> 0 < sg ->
  ~ (0 < gamma_primal s /\ gamma_dual s = 0) ->
  ~ (gamma_primal s = 0 /\ 0 < gamma_dual s) ->
  exists s' : @obj arr,
    update s = (s', Val tt) /\ pd_frame s s' it
    /\ tau s' = Some t /\ sigma s' = Some sg
    /\ x_ext s'
       = Some (vadd (x s') (vscale (theta s) (vsub (x s') (x s)))).
Proof.
  intros Hxe Huo Hxo Hit Ht Hsg _ _ Hp Hd.
  destruct s as [pfc pg gh A0 AH0 u0 x0 tau0 sigma0 th0 gp gd mi it0 xe0 uo0
                 xo0 rs0].
  cbn in Hxe, Huo, Hxo, Hit, Ht, Hsg, Hp, Hd. subst.
  assert (Hp' : Rltb 0 gp && Reqb gd 0 = false).
  { apply andb_false_iff.
    destruct (Rltb 0 gp) eqn:E1; [|left; reflexivity].
    destruct (Reqb gd 0) eqn:E2; [|right; reflexivity].
    exfalso. apply Hp. split; [apply Rltb_true|apply Reqb_true]; assumption. }
  assert (Hd' : Reqb gp 0 && Rltb 0 gd = false).
  { apply andb_false_iff.
    destruct (Reqb gp 0) eqn:E1; [|left; reflexivity].
    destruct (Rltb 0 gd) eqn:E2; [|right; reflexivity].
    exfalso. apply Hd. split; [apply Reqb_true|apply Rltb_true]; assumption. }
  clear Hp Hd. unfold pd_frame.
  destruct gh as [gh|]; pd_eval; rewrite Hp', Hd'; pd_eval;
    (eexists; split; [reflexivity|]; cbn; repeat split; eauto).
Qed.
End PrimalDualProps.

Lemma pdhg_step_rebalancing_witness :
  exists s' : PrimalDualHybridGradient.obj,
    PrimalDualHybridGradient.update (pdhg_example 1 0) = (s', Val tt)
    /\ PrimalDualHybridGradient.tau s'
       = Some (1 * (1 / sqrt (1 + 2 * 1 * Rabs 1)))
    /\ 0 < 1 * (1 / sqrt (1 + 2 * 1 * Rabs 1)) < 1.
Proof.
  assert (H01 : 0 < 1) by lra.
  destruct (proj1 (proj1 pdhg_step_rebalancing (pdhg_example 1 0) 1 1 0%Z
                     (1, 1) (0, 0) (1, 1) eq_refl eq_refl eq_refl eq_refl
                     eq_refl eq_refl H01 H01) H01 eq_refl)
    as (s' & Hu & _ & _ & Ht & _ & Hlt & _).
  exists s'. repeat split; assumption || apply Hlt.
Defined.

(** C4 as stated fails on the program's numbers: with
    [gamma_primal = 2 ** -60], [gamma_dual = 0] and [tau = sigma = 1],
    [1 + 2 * gamma_primal * |tau|] rounds to 1, so [theta] is 1 and the
    update leaves [tau] and [sigma] as they are. *)
Lemma pdhg_rebalancing_is_not_strict :
  PrimFloat.ltb Binary64.zero Binary64.two_pow_minus_60 = true
  /\ PrimFloat.eqb Binary64.zero Binary64.zero = true
  /\ Binary64.rebalance Binary64.two_pow_minus_60 Binary64.one
     = Binary64.one
  /\ Binary64.update_steps Binary64.two_pow_minus_60 Binary64.zero
       Binary64.one Binary64.one Binary64.one
     = (Binary64.one, Binary64.one, Binary64.one).
Proof.
  repeat split; vm_compute; reflexivity.
Qed.

(** ** Lifetime of the attributes made by init *)

Section AttributeLifetime.
Context {arr : Type} {ops : ArrayOps arr}.









End AttributeLifetime.



(** ** The harness *)

Section HarnessProps.
Context {S Out : Type}.
Variable h : App.hooks (S := S) (Out := Out).
Variable alg : App.alg_methods (S := S).

Lemma run_after_setup (fuel : nat) (s s1 s2 : S) :
  App._init h s = (s1, Val tt) ->
  App.alg_init alg s1 = (s2, Val tt) ->
  App.run h alg fuel s = App.run_from_loop h alg fuel s2.
Proof.
  intros Hi Ha. unfold App.run.
  rewrite (bind_val _ _ _ _ _ Hi). rewrite (bind_val _ _ _ _ _ Ha).
  reflexivity.
Qed.

Lemma loop_update_raises (n : nat) (s s1 s2 s3 : S) (e : exn) :
  App.alg_done alg s = (s1, Val false) ->
  App._pre_update h s1 = (s2, Val tt) ->
  App.alg_update alg s2 = (s3, Exn e) ->
  App.loop h alg (Datatypes.S n) s = (s3, Exn e).
Proof.
  intros Hd Hp Hu. cbn [App.loop].
  rewrite (bind_val _ _ _ _ _ Hd). rewrite (bind_val _ _ _ _ _ Hp).
  apply bind_exn. exact Hu.
Qed.

(** C2, as amended.  [run] has no handler around the loop: when the loop
    raises (part 2: for instance because [alg.update()] raises), the
    exception reaches the caller at once, with the state exactly as the
    raising call left it; neither [alg.cleanup()] nor the hooks [_cleanup]
    and [_output] are executed (part 1).  They are executed when, and only
    when, the loop ends normally (part 3). *)
Theorem run_raises_without_cleanup (fuel : nat) (s s1 s2 : S) :
  App._init h s = (s1, Val tt) ->
  App.alg_init alg s1 = (s2, Val tt) ->
  (forall (s3 : S) (e : exn),
      App.loop h alg fuel s2 = (s3, Exn e) ->
      App.run h alg fuel s = (s3, Exn e))
  /\ (forall (n : nat) (d p s3 : S) (e : exn),
      fuel = Datatypes.S n ->
      App.alg_done alg s2 = (d, Val false) ->
      App._pre_update h d = (p, Val tt) ->
      App.alg_update alg p = (s3, Exn e) ->
      App.run h alg fuel s = (s3, Exn e))
  /\ (forall s3 : S,
      App.loop h alg fuel s2 = (s3, Val tt) ->
      App.run h alg fuel s
      = (App.alg_cleanup alg ;;; App._cleanup h ;;; App._output h) s3).
Proof.
  intros Hi Ha.
  rewrite (run_after_setup fuel s s1 s2 Hi Ha). unfold App.run_from_loop.
  split; [|split].
  - intros s3 e Hl. apply bind_exn. exact Hl.
  - intros n d p s3 e -> Hd Hp Hu. apply bind_exn.
    exact (loop_update_raises n s2 d p s3 e Hd Hp Hu).
  - intros s3 Hl. rewrite (bind_val _ _ _ _ _ Hl). reflexivity.
Qed.
End HarnessProps.

(** C2 as stated fails: an accelerated GradientMethod without a step size
    raises in its first update; [run] returns the exception with the
    buffers [z], [t] and [x_old] still on the instance, whereas
    [cleanup] on that state deletes them. *)
Lemma run_skips_cleanup_on_exception :
  exists (o : GradientMethod.obj) (e : exn),
    App.run App.base_hooks gradient_method_methods 5 gm_unstepped
    = (o, Exn e)
    /\ e = TypeError "bad operand type for unary -: NoneType"
    /\ gm_attrs o = ["iter"; "z"; "t"; "x_old"; "resid"]
    /\ gm_attrs (fst (GradientMethod.cleanup o)) = ["iter"; "resid"].
Proof.
  eexists. eexists. split; [reflexivity|]. repeat split.
Qed.

Lemma run_raises_without_cleanup_witness :
  exists o : GradientMethod.obj,
    App.run App.base_hooks gradient_method_methods 5 gm_unstepped
    = (o, Exn (TypeError "bad operand type for unary -: NoneType"))
    /\ GradientMethod.z o = Some (1, 1).
Proof.
  eexists. split.
  - refine (proj1 (proj2 (run_raises_without_cleanup App.base_hooks
      gradient_method_methods 5 gm_unstepped gm_unstepped _ eq_refl eq_refl))
      4%nat _ _ _ _ eq_refl eq_refl eq_refl eq_refl).
  - reflexivity.
Defined.

(** ** The least-squares assembler *)

Section LeastSquaresProps.
Context {arr : Type} {ops : ArrayOps arr} {operators : OperatorOps arr}.
Import LinearLeastSquares.

Lemma pdhg_without_G (args : @obj arr ops) :
  selected_name args = "PrimalDualHybridGradient" ->
  R_ args = None -> G args = None ->
  exists (s : @obj arr ops) (o : @PrimalDualHybridGradient.obj arr),
    new args = (s, Val tt) /\ alg s = Some (PDHG o)
    /\ PrimalDualHybridGradient.gamma_dual o = 1
    /\ PrimalDualHybridGradient.gamma_primal o
       = (if Rltb 0 (lamda args) || Rltb 0 (mu args)
          then lamda args + mu args else 0).
Proof.
  destruct args as [A0 y0 x0 pg0 la0 G0 g0 R0 w0 mu0 z0 an0 mi0 P0 al0 mp0
                    ac0 tau0 sg0 sv0 alg0 ov0].
  unfold selected_name. cbn. intros Hn HR HG. subst.
  destruct an0 as [n|]; cbn in Hn.
  - subst n. sig_eval.
    destruct w0, pg0, (Rltb 0 la0), (Rltb 0 mu0); sig_eval;
      (eexists; eexists; repeat split).
  - destruct pg0; discriminate Hn.
Qed.
(** Evaluate the assembly up to the comparisons of the algorithm name. *)
Ltac lls_eval :=
  lazy beta iota zeta delta
    [new _get_alg selected_name default_alg_name bind get modify ret raise
     set_alg set_alg_name set_objective_values A y x proxg lamda G g R_
     weights mu z alg_name max_iter P alpha max_power_iter accelerate tau
     sigma save_objective_values alg objective_values default Datatypes.id].

(** With no [alg_name], the class of the algorithm follows from [proxg]
    and [G], and the chosen name is stored in [alg_name]. *)
Lemma lls_default_selection (args : @obj arr ops) :
  alg_name args = None ->
  (proxg args = None ->
   exists (s : @obj arr ops) (o : @ConjugateGradient.obj arr),
     new args = (s, Val tt) /\ alg s = Some (CG o)
     /\ alg_name s = Some "ConjugateGradient")
  /\ (forall pg : Prox arr,
      proxg args = Some pg -> G args = None ->
      exists (s : @obj arr ops) (o : @GradientMethod.obj arr),
        new args = (s, Val tt) /\ alg s = Some (GM o)
        /\ alg_name s = Some "GradientMethod"
        /\ GradientMethod.proxg o = Some pg
        /\ GradientMethod.alpha o = alpha args
        /\ GradientMethod.accelerate o = accelerate args
        /\ GradientMethod.max_iter o = max_iter args
        /\ GradientMethod.x o = x args)
  /\ (forall (pg : Prox arr) (Gl : Linop arr),
      proxg args = Some pg -> G args = Some Gl -> R_ args = None ->
      exists (s : @obj arr ops) (o : @PrimalDualHybridGradient.obj arr),
        new args = (s, Val tt) /\ alg s = Some (PDHG o)
        /\ alg_name s = Some "PrimalDualHybridGradient"
        /\ PrimalDualHybridGradient.gamma_dual o = 0
        /\ PrimalDualHybridGradient.tau o = tau args
        /\ PrimalDualHybridGradient.sigma o = sigma args).
Proof.
  destruct args as [A0 y0 x0 pg0 la0 G0 g0 R0 w0 mu0 z0 an0 mi0 P0 al0 mp0
                    ac0 tau0 sg0 sv0 alg0 ov0].
  cbn. intros ->. split; [|split].
  - intros ->. sig_eval. eexists. eexists. repeat split.
  - intros pg -> ->. sig_eval. eexists. eexists. repeat split.
  - intros pg Gl -> -> ->. sig_eval.
    destruct w0, (Rltb 0 la0), (Rltb 0 mu0); sig_eval;
      (eexists; eexists; repeat split).
Qed.
Lemma eqb_false (a b : string) : a <> b -> String.eqb a b = false.
Proof. intros Hne. apply String.eqb_neq. exact Hne. Qed.

(** [prox.Conj(None)], which [_get_PrimalDualHybridGradient] would build
    with [G] and without [proxg], is outside the model. *)
Ltac pdhg_cases w la mu :=
  destruct w, (Rltb 0 la), (Rltb 0 mu).

(** The three conflicts and the unknown name, each with its message; the
    algorithm is not built. *)
Lemma lls_conflicts_raise (args : @obj arr ops) :
  (selected_name args = "ConjugateGradient" -> proxg args <> None ->
   exists s : @obj arr ops,
     new args
     = (s, Exn (ValueError "ConjugateGradient cannot have proxg specified."))
     /\ alg s = None)
  /\ (selected_name args = "GradientMethod" -> G args <> None ->
      exists s : @obj arr ops,
        new args
        = (s, Exn (ValueError "GradientMethod cannot have G specified."))
        /\ alg s = None)
  /\ (selected_name args = "PrimalDualHybridGradient" -> R_ args <> None ->
      exists s : @obj arr ops,
        new args
        = (s, Exn (ValueError
             "PrimalDualHybridGradient cannot have R specified.Please consider stacking R with A."))
        /\ alg s = None)
  /\ (selected_name args <> "ConjugateGradient" ->
      selected_name args <> "GradientMethod" ->
      selected_name args <> "PrimalDualHybridGradient" ->
      exists s : @obj arr ops,
        new args
        = (s, Exn (ValueError
             ("Invalid alg_name: " ++ selected_name args ++ ".")))
        /\ alg s = None).
Proof.
  destruct args as [A0 y0 x0 pg0 la0 G0 g0 R0 w0 mu0 z0 an0 mi0 P0 al0 mp0
                    ac0 tau0 sg0 sv0 alg0 ov0].
  unfold selected_name. cbn [alg_name proxg G R_ default_alg_name].
  split; [|split; [|split]].
  - intros Hn Hp. destruct pg0 as [pg|]; [|congruence].
    destruct an0 as [n|]; [subst n|destruct G0; discriminate Hn].
    sig_eval. eexists. split; reflexivity.
  - intros Hn Hg. destruct G0 as [Gl|]; [|congruence].
    destruct an0 as [n|]; [subst n|destruct pg0; discriminate Hn].
    sig_eval. eexists. split; reflexivity.
  - intros Hn Hr. destruct R0 as [Rl|]; [|congruence].
    destruct an0 as [n|].
    + subst n. sig_eval. eexists. split; reflexivity.
    + destruct pg0; [destruct G0|]; try discriminate Hn.
      sig_eval. eexists. split; reflexivity.
  - intros H1 H2 H3. destruct an0 as [n|].
    + lls_eval. rewrite (eqb_false _ _ H1), (eqb_false _ _ H2),
        (eqb_false _ _ H3).
      eexists. split; reflexivity.
    + destruct pg0; [destruct G0|]; cbn in H1, H2, H3; congruence.
Qed.
(** Without a conflict the algorithm of the selected class is built.
    With [G] the primal-dual path needs [proxg], whose conjugate it
    takes. *)
Lemma lls_assembly_succeeds (args : @obj arr ops) :
  (selected_name args = "ConjugateGradient" -> proxg args = None ->
   exists (s : @obj arr ops) (o : @ConjugateGradient.obj arr),
     new args = (s, Val tt) /\ alg s = Some (CG o))
  /\ (selected_name args = "GradientMethod" -> G args = None ->
      exists (s : @obj arr ops) (o : @GradientMethod.obj arr),
        new args = (s, Val tt) /\ alg s = Some (GM o))
  /\ (selected_name args = "PrimalDualHybridGradient" -> R_ args = None ->
      G args = None \/ proxg args <> None ->
      exists (s : @obj arr ops) (o : @PrimalDualHybridGradient.obj arr),
        new args = (s, Val tt) /\ alg s = Some (PDHG o)).
Proof.
  destruct args as [A0 y0 x0 pg0 la0 G0 g0 R0 w0 mu0 z0 an0 mi0 P0 al0 mp0
                    ac0 tau0 sg0 sv0 alg0 ov0].
  unfold selected_name. cbn [alg_name proxg G R_ default_alg_name].
  split; [|split].
  - intros Hn ->.
    destruct an0 as [n|]; [subst n|]; sig_eval;
      (eexists; eexists; split; reflexivity).
  - intros Hn ->.
    destruct an0 as [n|]; [subst n|destruct pg0; [|discriminate Hn]];
      sig_eval; (eexists; eexists; split; reflexivity).
  - intros Hn -> Hg.
    destruct an0 as [n|].
    + subst n. destruct G0 as [Gl|].
      * destruct Hg as [Hg|Hg]; [discriminate Hg|].
        destruct pg0 as [pg|]; [|congruence].
        sig_eval; pdhg_cases w0 la0 mu0; sig_eval;
          (eexists; eexists; split; reflexivity).
      * destruct pg0; sig_eval; pdhg_cases w0 la0 mu0; sig_eval;
          (eexists; eexists; split; reflexivity).
    + destruct pg0 as [pg|]; [destruct G0 as [Gl|]|]; try discriminate Hn.
      sig_eval; pdhg_cases w0 la0 mu0; sig_eval;
        (eexists; eexists; split; reflexivity).
Qed.

(** [objective] needs [g] exactly when [proxg] is set. *)
Lemma objective_requires_g (s s' : @obj arr ops) (xv : arr) :
  x_of s = (s', Val xv) ->
  (proxg s <> None -> g s = None ->
   objective s
   = (s', Exn (ValueError
        "Cannot compute objective when proxg is specified,but g is not.")))
  /\ (proxg s = None \/ g s <> None ->
      exists v : R, objective s = (s', Val v)).
Proof.
  intros Hx. unfold objective.
  rewrite (bind_val get _ s s s eq_refl). rewrite (bind_val _ _ _ _ _ Hx).
  split.
  - intros Hp Hg. destruct (proxg s); [|congruence]. rewrite Hg. reflexivity.
  - intros Hc. destruct (proxg s) as [pg|].
    + destruct Hc as [Hc|Hc]; [discriminate Hc|].
      destruct (g s) as [gf|]; [|congruence].
      destruct (G s); eexists; reflexivity.
    + eexists. reflexivity.
Qed.

Lemma getattr_some {S B : Type} (name : string) (f : S -> option B) (s : S)
    (v : B) :
  f s = Some v -> getattr name f s = (s, Val v).
Proof. intros Hf. unfold getattr. rewrite Hf. reflexivity. Qed.

(** [_summarize] evaluates the objective only when
    [save_objective_values] is set; it then appends one value, or raises
    the error of [objective] and leaves the list as it was. *)
Theorem summarize_records_objective (s : @obj arr ops) :
  (save_objective_values s = false -> _summarize s = (s, Val tt))
  /\ (forall (s' : @obj arr ops) (xv : arr) (vs : list R),
      save_objective_values s = true -> objective_values s = Some vs ->
      x_of s = (s', Val xv) -> proxg s <> None -> g s = None ->
      _summarize s
      = (s', Exn (ValueError
           "Cannot compute objective when proxg is specified,but g is not."))
      /\ objective_values s' = Some vs)
  /\ (forall (s' : @obj arr ops) (xv : arr) (vs : list R),
      save_objective_values s = true -> objective_values s = Some vs ->
      x_of s = (s', Val xv) -> proxg s = None \/ g s <> None ->
      exists v : R,
        objective s = (s', Val v)
        /\ _summarize s
           = (set_objective_values (Some (vs ++ [v])) s', Val tt)).
Proof.
  unfold _summarize. rewrite (bind_val get _ s s s eq_refl).
  split; [|split].
  - intros ->. reflexivity.
  - intros s' xv vs -> Hvs Hx Hp Hg.
    rewrite (bind_val _ _ _ _ _ (getattr_some _ _ _ _ Hvs)).
    destruct (objective_requires_g s s' xv Hx) as [Hraise _].
    rewrite (bind_exn _ _ _ _ _ (Hraise Hp Hg)).
    split; [reflexivity|].
    revert Hx. unfold x_of, on_alg.
    destruct (alg s) as [[o|o|o]|];
      try match goal with
          | |- context [let '(_, _) := ?c in _] => destruct c as [o' r]
          end;
      intros Hx; inversion Hx; exact Hvs.
  - intros s' xv vs -> Hvs Hx Hc.
    rewrite (bind_val _ _ _ _ _ (getattr_some _ _ _ _ Hvs)).
    destruct (objective_requires_g s s' xv Hx) as [_ Hval].
    destruct (Hval Hc) as [v Hv].
    exists v. split; [exact Hv|].
    rewrite (bind_val _ _ _ _ _ Hv). reflexivity.
Qed.
End LeastSquaresProps.

(** ** The iteration loop, step by step *)

Section LoopSteps.
Context {S Out : Type}.
Variable h : App.hooks (S := S) (Out := Out).
Variable alg : App.alg_methods (S := S).

Lemma loop_done (n : nat) (s s1 : S) :
  App.alg_done alg s = (s1, Val true) ->
  App.loop h alg (Datatypes.S n) s = (s1, Val tt).
Proof.
  intros Hd. cbn [App.loop]. rewrite (bind_val _ _ _ _ _ Hd). reflexivity.
Qed.

Lemma loop_step (n : nat) (s s1 s2 s3 s4 s5 : S) :
  App.alg_done alg s = (s1, Val false) ->
  App._pre_update h s1 = (s2, Val tt) ->
  App.alg_update alg s2 = (s3, Val tt) ->
  App._post_update h s3 = (s4, Val tt) ->
  App._summarize h s4 = (s5, Val tt) ->
  App.loop h alg (Datatypes.S n) s = App.loop h alg n s5.
Proof.
  intros Hd Hp Hu Hq Hs. cbn [App.loop].
  rewrite (bind_val _ _ _ _ _ Hd). cbv iota.
  rewrite (bind_val _ _ _ _ _ Hp). rewrite (bind_val _ _ _ _ _ Hu).
  rewrite (bind_val _ _ _ _ _ Hq). rewrite (bind_val _ _ _ _ _ Hs).
  reflexivity.
Qed.

End LoopSteps.

(** ** The power method and the eigenvalue estimate *)

Section PowerMethodProps.
Context {arr : Type} {ops : ArrayOps arr}.
Import PowerMethod.

Lemma pm_update_ok (o : @obj arr) (it : Z) :
  iter o = Some it -> update o = (pm_step o it, Val tt).
Proof.
  destruct o as [A0 x0 mi it0 me]. cbn. intros ->. reflexivity.
Qed.

Lemma pm_done_ok (o : @obj arr) (it : Z) :
  iter o = Some it -> done o = (o, Val (max_iter o <=? it)%Z).
Proof.
  destruct o as [A0 x0 mi it0 me]. cbn. intros ->. reflexivity.
Qed.

Lemma me_done (o : @obj arr) (it : Z) :
  iter o = Some it ->
  App.alg_done MaxEig.alg_methods (MaxEig.mk o)
  = (MaxEig.mk o, Val (max_iter o <=? it)%Z).
Proof.
  intros Hit. unfold MaxEig.alg_methods, MaxEig.on_alg, zoom.
  cbn [App.alg_done MaxEig.alg]. rewrite (pm_done_ok o it Hit). reflexivity.
Qed.

Lemma me_update (o : @obj arr) (it : Z) :
  iter o = Some it ->
  App.alg_update MaxEig.alg_methods (MaxEig.mk o)
  = (MaxEig.mk (pm_step o it), Val tt).
Proof.
  intros Hit. unfold MaxEig.alg_methods, MaxEig.on_alg, zoom.
  cbn [App.alg_update MaxEig.alg]. rewrite (pm_update_ok o it Hit).
  reflexivity.
Qed.

Lemma pm_loop (n : nat) :
  forall (fuel : nat) (o : @obj arr) (it : Z),
    iter o = Some it -> Z.to_nat (max_iter o - it) = n -> (n < fuel)%nat ->
    exists o' : @obj arr,
      App.loop MaxEig.hooks MaxEig.alg_methods fuel (MaxEig.mk o)
      = (MaxEig.mk o', Val tt)
      /\ iter o' = Some (Z.max it (max_iter o))
      /\ A o' = A o /\ max_iter o' = max_iter o
      /\ (n = 0%nat -> o' = o)
      /\ ((0 < n)%nat -> exists xl : arr, max_eig o' = Some (norm (A o xl))).
Proof.
  induction n as [|n IH]; intros fuel o it Hit Hn Hf.
  - destruct fuel as [|f]; [lia|].
    exists o. split.
    + apply loop_done. rewrite (me_done o it Hit).
      replace (max_iter o <=? it)%Z with true by (symmetry; apply Z.leb_le; lia).
      reflexivity.
    + rewrite Hit, Z.max_l by lia. repeat split; intros; lia.
  - destruct fuel as [|f]; [lia|].
    destruct (IH f (pm_step o it) (it + 1)%Z eq_refl) as (o' & Hl & Hi & HA & Hm & H0 & Hpos);
      [cbn; lia|lia|].
    exists o'. split.
    + rewrite <- Hl.
      apply (loop_step MaxEig.hooks MaxEig.alg_methods f (MaxEig.mk o)
               (MaxEig.mk o) (MaxEig.mk o) (MaxEig.mk (pm_step o it))
               (MaxEig.mk (pm_step o it)) (MaxEig.mk (pm_step o it)));
        try reflexivity.
      * rewrite (me_done o it Hit).
        replace (max_iter o <=? it)%Z with false
          by (symmetry; apply Z.leb_gt; lia).
        reflexivity.
      * apply me_update. exact Hit.
    + cbn in Hi, HA, Hm. rewrite Hi, HA, Hm.
      split; [f_equal; lia|]. repeat split; [lia|].
      intros _. destruct n as [|n].
      * rewrite (H0 eq_refl). exists (x o). reflexivity.
      * destruct Hpos as [xl Hxl]; [lia|]. exists xl. exact Hxl.
Qed.
(** The instance the loop of [MaxEig(L, max_iter=mi).run()] starts
    from. *)
Lemma me_setup (L : Linop arr) (mi : Z) (fuel : nat) :
  MaxEig.run fuel (MaxEig.new L mi)
  = App.run_from_loop MaxEig.hooks MaxEig.alg_methods fuel
      (MaxEig.mk (mk (apply L) (randn (shape_of (zeros (ishape L)))) mi
                     (Some 0%Z) None)).
Proof.
  unfold MaxEig.run.
  apply (run_after_setup MaxEig.hooks MaxEig.alg_methods fuel
           (MaxEig.new L mi)
           (MaxEig.mk (mk (apply L) (randn (shape_of (zeros (ishape L)))) mi
                          None None))); reflexivity.
Qed.

Lemma max_eig_run_value (L : Linop arr) (mi : Z) (fuel : nat) :
  (0 < mi)%Z -> (Z.to_nat mi < fuel)%nat ->
  exists (s' : @MaxEig.obj arr) (xl : arr),
    MaxEig.run fuel (MaxEig.new L mi) = (s', Val (norm (apply L xl)))
    /\ iter (MaxEig.alg s') = Some mi.
Proof.
  intros Hmi Hf. rewrite me_setup.
  destruct (pm_loop (Z.to_nat mi) fuel
              (mk (apply L) (randn (shape_of (zeros (ishape L)))) mi
                  (Some 0%Z) None) 0%Z eq_refl)
    as (o' & Hl & Hi & HA & Hm & _ & Hpos);
    [cbn; f_equal; lia|exact Hf|].
  destruct Hpos as [xl Hxl]; [lia|]. cbn in Hi, Hxl.
  exists (MaxEig.mk o'), xl. unfold App.run_from_loop.
  rewrite (bind_val _ _ _ _ _ Hl).
  destruct o' as [A1 x1 mi1 it1 me1]. cbn in Hi, Hxl. subst. cbn.
  split; [reflexivity|]. f_equal. lia.
Qed.

Lemma max_eig_run_no_update (L : Linop arr) (mi : Z) (fuel : nat) :
  (mi <= 0)%Z -> (0 < fuel)%nat ->
  exists s' : @MaxEig.obj arr,
    MaxEig.run fuel (MaxEig.new L mi) = (s', Exn (AttributeError "max_eig"))
    /\ iter (MaxEig.alg s') = Some 0%Z.
Proof.
  intros Hmi Hf. rewrite me_setup.
  destruct (pm_loop 0 fuel
              (mk (apply L) (randn (shape_of (zeros (ishape L)))) mi
                  (Some 0%Z) None) 0%Z eq_refl)
    as (o' & Hl & _ & _ & _ & H0 & _);
    [cbn; lia|exact Hf|].
  rewrite (H0 eq_refl) in Hl.
  eexists. unfold App.run_from_loop.
  rewrite (bind_val _ _ _ _ _ Hl). cbn. split; reflexivity.
Qed.

(** [MaxEig.run] makes exactly [max_iter] power iterations and returns
    the norm of [A] applied to the last iterate; with [max_iter <= 0] no
    iteration is made, [alg.max_eig] is never assigned, and [_output]
    raises [AttributeError]. *)
Theorem max_eig_estimate (L : Linop arr) (mi : Z) (fuel : nat) :
  (Z.to_nat mi < fuel)%nat ->
  ((0 < mi)%Z ->
   exists (s' : @MaxEig.obj arr) (xl : arr),
     MaxEig.run fuel (MaxEig.new L mi) = (s', Val (norm (apply L xl)))
     /\ iter (MaxEig.alg s') = Some mi)
  /\ ((mi <= 0)%Z ->
      exists s' : @MaxEig.obj arr,
        MaxEig.run fuel (MaxEig.new L mi)
        = (s', Exn (AttributeError "max_eig"))
        /\ iter (MaxEig.alg s') = Some 0%Z).
Proof.
  intros Hf. split; intros Hmi.
  - apply max_eig_run_value; assumption.
  - apply max_eig_run_no_update; [assumption|lia].
Qed.
End PowerMethodProps.

(** ** Step sizes resolved by the assemblers *)

Section AssemblerInit.
Context {arr : Type} {ops : ArrayOps arr} {operators : OperatorOps arr}.

Lemma l2cm_new_parts (A0 : Linop arr) (y0 x0 : arr) (pg : Prox arr) (eps : R)
    (G0 : option (Linop arr)) (w : option arr) (mi : Z) (t sg : option R)
    (th : R) :
  exists L : Linop arr,
    L2ConstrainedMinimization.max_eig_app
      (L2ConstrainedMinimization.new A0 y0 x0 pg eps G0 w mi t sg th)
    = MaxEig.new L 30
    /\ PrimalDualHybridGradient.tau
         (L2ConstrainedMinimization.alg
            (L2ConstrainedMinimization.new A0 y0 x0 pg eps G0 w mi t sg th))
       = t
    /\ PrimalDualHybridGradient.sigma
         (L2ConstrainedMinimization.alg
            (L2ConstrainedMinimization.new A0 y0 x0 pg eps G0 w mi t sg th))
       = sg.
Proof.
  destruct w, G0; eexists; repeat split.
Qed.

Lemma l2cm_init_resolves (s : @L2ConstrainedMinimization.obj arr)
    (fuel : nat) (m' : @MaxEig.obj arr) (e : R) :
  MaxEig.run fuel (L2ConstrainedMinimization.max_eig_app s) = (m', Val e) ->
  is_none (PrimalDualHybridGradient.tau (L2ConstrainedMinimization.alg s))
  || is_none (PrimalDualHybridGradient.sigma (L2ConstrainedMinimization.alg s))
  = true ->
  L2ConstrainedMinimization._init fuel s
  = (L2ConstrainedMinimization.mk m'
       (PrimalDualHybridGradient.set_sigma (Some (1 / e))
          (PrimalDualHybridGradient.set_tau (Some 1)
             (L2ConstrainedMinimization.alg s))), Val tt).
Proof.
  intros Hrun Hnone. destruct s as [m a].
  unfold L2ConstrainedMinimization._init.
  rewrite (bind_val get _ _ _ _ eq_refl). rewrite Hnone.
  cbn [L2ConstrainedMinimization.max_eig_app L2ConstrainedMinimization.alg]
    in Hrun |- *.
  unfold bind, L2ConstrainedMinimization.on_alg, zoom, modify.
  cbn [L2ConstrainedMinimization.max_eig_app L2ConstrainedMinimization.alg
       L2ConstrainedMinimization.set_alg
       L2ConstrainedMinimization.set_max_eig_app].
  rewrite Hrun. reflexivity.
Qed.

Lemma l2cm_init_keeps (s : @L2ConstrainedMinimization.obj arr)
    (fuel : nat) :
  is_none (PrimalDualHybridGradient.tau (L2ConstrainedMinimization.alg s))
  || is_none (PrimalDualHybridGradient.sigma (L2ConstrainedMinimization.alg s))
  = false ->
  L2ConstrainedMinimization._init fuel s = (s, Val tt).
Proof.
  intros Hnone. unfold L2ConstrainedMinimization._init.
  rewrite (bind_val get _ _ _ _ eq_refl). rewrite Hnone. reflexivity.
Qed.

(** [L2ConstrainedMinimization._init] sets both step sizes, [tau = 1]
    and [sigma = 1 / max_eig], as soon as one of them is [None]: a step
    size the caller gave alone is overwritten.  The caller's step sizes
    are kept only when both are given.  The estimate is the result of
    thirty power iterations; the result is stated for a nonzero
    estimate. *)
Theorem l2cm_step_defaults (A0 : Linop arr) (y0 x0 : arr) (pg : Prox arr)
    (eps : R) (G0 : option (Linop arr)) (w : option arr) (mi : Z)
    (t sg : option R) (th : R) (fuel : nat) :
  (30 < fuel)%nat ->
  (t = None \/ sg = None ->
   exists (L : Linop arr) (xl : arr),
     L2ConstrainedMinimization.max_eig_app
       (L2ConstrainedMinimization.new A0 y0 x0 pg eps G0 w mi t sg th)
     = MaxEig.new L 30
     /\ snd (MaxEig.run fuel (MaxEig.new L 30)) = Val (norm (apply L xl))
     /\ (norm (apply L xl) <> 0 ->
         exists s' : @L2ConstrainedMinimization.obj arr,
           L2ConstrainedMinimization._init fuel
             (L2ConstrainedMinimization.new A0 y0 x0 pg eps G0 w mi t sg th)
           = (s', Val tt)
           /\ PrimalDualHybridGradient.tau (L2ConstrainedMinimization.alg s')
              = Some 1
           /\ PrimalDualHybridGradient.sigma
                (L2ConstrainedMinimization.alg s')
              = Some (1 / norm (apply L xl))))
  /\ (forall t0 sg0 : R,
      t = Some t0 -> sg = Some sg0 ->
      L2ConstrainedMinimization._init fuel
        (L2ConstrainedMinimization.new A0 y0 x0 pg eps G0 w mi t sg th)
      = (L2ConstrainedMinimization.new A0 y0 x0 pg eps G0 w mi t sg th,
         Val tt)
      /\ PrimalDualHybridGradient.tau
           (L2ConstrainedMinimization.alg
              (L2ConstrainedMinimization.new A0 y0 x0 pg eps G0 w mi t sg th))
         = Some t0
      /\ PrimalDualHybridGradient.sigma
           (L2ConstrainedMinimization.alg
              (L2ConstrainedMinimization.new A0 y0 x0 pg eps G0 w mi t sg th))
         = Some sg0).
Proof.
  intros Hf.
  destruct (l2cm_new_parts A0 y0 x0 pg eps G0 w mi t sg th)
    as (L & HL & Ht & Hs).
  split.
  - intros Hnone.
    destruct (max_eig_run_value L 30 fuel) as (m' & xl & Hrun & _);
      [lia|cbn; lia|].
    exists L, xl. split; [exact HL|].
    split; [rewrite Hrun; reflexivity|].
    intros _. rewrite <- HL in Hrun.
    eexists.
    rewrite (l2cm_init_resolves _ fuel m' _ Hrun).
    + repeat split.
    + rewrite Ht, Hs. destruct Hnone as [-> | ->]; [reflexivity|].
      destruct t; reflexivity.
  - intros t0 sg0 -> ->. split; [|split; assumption].
    apply l2cm_init_keeps. rewrite Ht, Hs. reflexivity.
Qed.

Lemma lls_max_eig_value (fuel : nat) (L : Linop arr) (mi : Z) :
  (0 < mi)%Z -> (Z.to_nat mi < fuel)%nat ->
  exists xl : arr,
    snd (MaxEig.run fuel (MaxEig.new L mi)) = Val (norm (apply L xl))
    /\ forall s : @LinearLeastSquares.obj arr ops,
         LinearLeastSquares.max_eig fuel L mi s
         = (s, Val (norm (apply L xl))).
Proof.
  intros Hmi Hf.
  destruct (max_eig_run_value L mi fuel Hmi Hf) as (m' & xl & Hrun & _).
  exists xl. split; [rewrite Hrun; reflexivity|].
  intros s. unfold LinearLeastSquares.max_eig. rewrite Hrun. reflexivity.
Qed.

Lemma lls_max_eig_fails (s : @LinearLeastSquares.obj arr ops) (fuel : nat)
    (L : Linop arr) (mi : Z) :
  (mi <= 0)%Z -> (0 < fuel)%nat ->
  LinearLeastSquares.max_eig fuel L mi s
  = (s, Exn (AttributeError "max_eig")).
Proof.
  intros Hmi Hf. unfold LinearLeastSquares.max_eig.
  destruct (max_eig_run_no_update L mi fuel Hmi Hf) as (m' & Hrun & _).
  rewrite Hrun. reflexivity.
Qed.

Lemma on_gm_modify (s : @LinearLeastSquares.obj arr ops)
    (o : @GradientMethod.obj arr)
    (f : @GradientMethod.obj arr -> @GradientMethod.obj arr) :
  LinearLeastSquares.alg s = Some (LinearLeastSquares.GM o) ->
  LinearLeastSquares.on_gm (modify f) s
  = (LinearLeastSquares.set_alg (Some (LinearLeastSquares.GM (f o))) s,
     Val tt).
Proof.
  intros Ha. unfold LinearLeastSquares.on_gm, LinearLeastSquares.on_alg.
  rewrite Ha. reflexivity.
Qed.

Lemma get_alpha_ok (s : @LinearLeastSquares.obj arr ops)
    (o : @GradientMethod.obj arr) (fuel : nat) :
  LinearLeastSquares.alg s = Some (LinearLeastSquares.GM o) ->
  (0 < LinearLeastSquares.max_power_iter s)%Z ->
  (Z.to_nat (LinearLeastSquares.max_power_iter s) < fuel)%nat ->
  exists xl : arr,
    snd (MaxEig.run fuel
           (MaxEig.new (LinearLeastSquares.normal_operator s)
              (LinearLeastSquares.max_power_iter s)))
    = Val (norm (apply (LinearLeastSquares.normal_operator s) xl))
    /\ LinearLeastSquares._get_alpha fuel s
       = (LinearLeastSquares.set_alg
            (Some (LinearLeastSquares.GM
               (GradientMethod.set_alpha
                  (Some (1 / norm (apply
                                     (LinearLeastSquares.normal_operator s)
                                     xl))) o))) s, Val tt).
Proof.
  intros Ha Hmi Hf. unfold LinearLeastSquares._get_alpha.
  rewrite (bind_val get _ s s s eq_refl).
  destruct (lls_max_eig_value fuel (LinearLeastSquares.normal_operator s)
              _ Hmi Hf) as (xl & Hrun & Hx).
  rewrite (bind_val _ _ _ _ _ (Hx s)). exists xl.
  split; [exact Hrun|]. apply on_gm_modify. exact Ha.
Qed.

(** On the gradient-method path [_init] derives the step size only when
    the caller gave none: it is then the inverse of the eigenvalue
    estimate of the normal operator, made with [max_power_iter] power
    iterations (stated for a nonzero estimate); with
    [max_power_iter <= 0] the estimate does not exist and [_init] raises
    [AttributeError].  A step size given by the caller is left as it is.
    The list of objective values is created when [save_objective_values]
    is set. *)
Theorem lls_init_gradient_step (s : @LinearLeastSquares.obj arr ops)
    (o : @GradientMethod.obj arr) (fuel : nat) :
  LinearLeastSquares.alg s = Some (LinearLeastSquares.GM o) ->
  (forall a : R,
      LinearLeastSquares.alpha s = Some a ->
      LinearLeastSquares._init fuel s
      = ((if LinearLeastSquares.save_objective_values s
          then LinearLeastSquares.set_objective_values (Some []) s
          else s), Val tt))
  /\ (LinearLeastSquares.alpha s = None ->
      (0 < LinearLeastSquares.max_power_iter s)%Z ->
      (Z.to_nat (LinearLeastSquares.max_power_iter s) < fuel)%nat ->
      exists xl : arr,
        snd (MaxEig.run fuel
               (MaxEig.new (LinearLeastSquares.normal_operator s)
                  (LinearLeastSquares.max_power_iter s)))
        = Val (norm (apply (LinearLeastSquares.normal_operator s) xl))
        /\ (norm (apply (LinearLeastSquares.normal_operator s) xl) <> 0 ->
            exists s' : @LinearLeastSquares.obj arr ops,
              LinearLeastSquares._init fuel s = (s', Val tt)
              /\ LinearLeastSquares.alg s'
                 = Some (LinearLeastSquares.GM
                     (GradientMethod.set_alpha
                        (Some (1 / norm (apply
                                 (LinearLeastSquares.normal_operator s) xl)))
                        o))
              /\ LinearLeastSquares.objective_values s'
                 = (if LinearLeastSquares.save_objective_values s
                    then Some []
                    else LinearLeastSquares.objective_values s)))
  /\ (LinearLeastSquares.alpha s = None ->
      (LinearLeastSquares.max_power_iter s <= 0)%Z -> (0 < fuel)%nat ->
      LinearLeastSquares._init fuel s
      = (s, Exn (AttributeError "max_eig"))).
Proof.
  intros Ha. unfold LinearLeastSquares._init.
  rewrite (bind_val get _ s s s eq_refl). rewrite Ha.
  split; [|split].
  - intros a ->. cbn [is_none].
    rewrite (bind_val (ret tt) _ s s tt eq_refl).
    destruct (LinearLeastSquares.save_objective_values s); reflexivity.
  - intros -> Hmi Hf. cbn [is_none].
    destruct (get_alpha_ok s o fuel Ha Hmi Hf) as (xl & Hrun & Hx).
    exists xl. split; [exact Hrun|]. intros _.
    rewrite (bind_val _ _ _ _ _ Hx).
    destruct (LinearLeastSquares.save_objective_values s);
      eexists; repeat split.
  - intros -> Hmi Hf. cbn [is_none].
    apply bind_exn. unfold LinearLeastSquares._get_alpha.
    rewrite (bind_val get _ s s s eq_refl).
    apply bind_exn. apply lls_max_eig_fails; assumption.
Qed.







End AssemblerInit.

(** ** The primal-dual path of the least-squares assembler *)

Section LeastSquaresPrimalDual.
Context {arr : Type} {ops : ArrayOps arr} {operators : OperatorOps arr}.

Lemma pdhg_with_G (args : @LinearLeastSquares.obj arr ops) (Gl : Linop arr)
    (pg : Prox arr) :
  selected_name args = "PrimalDualHybridGradient" ->
  LinearLeastSquares.R_ args = None ->
  LinearLeastSquares.G args = Some Gl ->
  LinearLeastSquares.proxg args = Some pg ->
  exists (s : @LinearLeastSquares.obj arr ops)
         (o : @PrimalDualHybridGradient.obj arr),
    LinearLeastSquares.new args = (s, Val tt)
    /\ LinearLeastSquares.alg s = Some (LinearLeastSquares.PDHG o)
    /\ PrimalDualHybridGradient.gamma_dual o = 0.
Proof.
  destruct args as [A0 y0 x0 pg0 la0 G0 g0 R0 w0 mu0 z0 an0 mi0 P0 al0 mp0
                    ac0 tau0 sg0 sv0 alg0 ov0].
  unfold selected_name. cbn. intros Hn HR HG Hp. subst.
  destruct an0 as [n|]; [subst n|]; sig_eval;
    destruct w0, (Rltb 0 la0), (Rltb 0 mu0); sig_eval;
    (eexists; eexists; repeat split).
Qed.

(** On the primal-dual path without [G] the algorithm is built with
    [gamma_dual = 1], whatever the caller gave; with [lamda = mu = 0]
    its [gamma_primal] is 0, so that every update takes the dual branch
    of the step-size rule: it divides [tau] and multiplies [sigma] by
    [theta = 1 / (1 + 2 * 1 * |sigma|) ** 0.5].  With [G] the algorithm
    is built with [gamma_dual = 0]. *)
Theorem lls_primal_dual_gamma_dual (args : @LinearLeastSquares.obj arr ops) :
  selected_name args = "PrimalDualHybridGradient" ->
  LinearLeastSquares.R_ args = None ->
  (LinearLeastSquares.G args = None ->
   exists (s : @LinearLeastSquares.obj arr ops)
          (o : @PrimalDualHybridGradient.obj arr),
     LinearLeastSquares.new args = (s, Val tt)
     /\ LinearLeastSquares.alg s = Some (LinearLeastSquares.PDHG o)
     /\ PrimalDualHybridGradient.gamma_dual o = 1
     /\ (LinearLeastSquares.lamda args = 0 ->
         LinearLeastSquares.mu args = 0 ->
         PrimalDualHybridGradient.gamma_primal o = 0
         /\ forall (o1 : @PrimalDualHybridGradient.obj arr) (t sg : R)
                   (it : Z) (xe uo xo : arr),
             PrimalDualHybridGradient.gamma_primal o1
             = PrimalDualHybridGradient.gamma_primal o ->
             PrimalDualHybridGradient.gamma_dual o1
             = PrimalDualHybridGradient.gamma_dual o ->
             PrimalDualHybridGradient.x_ext o1 = Some xe ->
             PrimalDualHybridGradient.u_old o1 = Some uo ->
             PrimalDualHybridGradient.x_old o1 = Some xo ->
             PrimalDualHybridGradient.iter o1 = Some it ->
             PrimalDualHybridGradient.tau o1 = Some t ->
             PrimalDualHybridGradient.sigma o1 = Some sg ->
             0 < t -> 0 < sg ->
             let th := 1 / sqrt (1 + 2 * 1 * Rabs sg) in
             exists o2 : @PrimalDualHybridGradient.obj arr,
               PrimalDualHybridGradient.update o1 = (o2, Val tt)
               /\ PrimalDualHybridGradient.tau o2 = Some (t / th)
               /\ PrimalDualHybridGradient.sigma o2 = Some (sg * th)
               /\ PrimalDualHybridGradient.gamma_primal o2 = 0
               /\ PrimalDualHybridGradient.gamma_dual o2 = 1))
  /\ (forall (Gl : Linop arr) (pg : Prox arr),
      LinearLeastSquares.G args = Some Gl ->
      LinearLeastSquares.proxg args = Some pg ->
      exists (s : @LinearLeastSquares.obj arr ops)
             (o : @PrimalDualHybridGradient.obj arr),
        LinearLeastSquares.new args = (s, Val tt)
        /\ LinearLeastSquares.alg s = Some (LinearLeastSquares.PDHG o)
        /\ PrimalDualHybridGradient.gamma_dual o = 0).
Proof.
  intros Hn HR. split.
  - intros HG.
    destruct (pdhg_without_G args Hn HR HG) as (s & o & Hnew & Ha & Hgd & Hgp).
    exists s, o. split; [exact Hnew|]. split; [exact Ha|].
    split; [exact Hgd|].
    intros Hl Hm. rewrite Hl, Hm, Rltb_irrefl in Hgp. cbn in Hgp.
    split; [exact Hgp|].
    intros o1 t sg it xe uo xo Hp1 Hd1 Hxe Huo Hxo Hit Ht Hsg Htpos Hsgpos th.
    rewrite Hgp in Hp1. rewrite Hgd in Hd1.
    destruct (pdhg_update_dual o1 t sg it xe uo xo Hxe Huo Hxo Hit Ht Hsg Hp1)
      as (o2 & Hu & Hfr & Ht2 & Hs2); [rewrite Hd1; lra|].
    rewrite Hd1 in Ht2, Hs2.
    destruct Hfr as (_ & _ & _ & _ & Hp2 & Hd2 & _).
    exists o2. split; [exact Hu|]. split; [exact Ht2|]. split; [exact Hs2|].
    split; [rewrite Hp2; exact Hp1|rewrite Hd2; exact Hd1].
  - intros Gl pg HG Hp. exact (pdhg_with_G args Gl pg Hn HR HG Hp).
Qed.
End LeastSquaresPrimalDual.

(** ** The conjugate-gradient path of the least-squares assembler *)

Section NormalEquations.
Context {arr : Type} {ops : ArrayOps arr} {operators : OperatorOps arr}.

Lemma normal_operator_apply (s : @LinearLeastSquares.obj arr ops) (v : arr) :
  zero_scale_law ->
  apply (LinearLeastSquares.normal_operator s) v = normal_lhs s v.
Proof.
  intros Hlaw.
  destruct s as [A0 y0 x0 pg0 la0 G0 g0 R0 w0 mu0 z0 an0 mi0 P0 al0 mp0
                 ac0 tau0 sg0 sv0 alg0 ov0].
  unfold LinearLeastSquares.normal_operator, LinearLeastSquares.gram,
    normal_lhs, weighted, regularizer.
  cbn [LinearLeastSquares.A LinearLeastSquares.weights LinearLeastSquares.R_
       LinearLeastSquares.lamda LinearLeastSquares.mu LinearLeastSquares.x].
  destruct (Reqb la0 0) eqn:El, (Reqb mu0 0) eqn:Em;
    try (apply Reqb_true in El; subst la0);
    try (apply Reqb_true in Em; subst mu0);
    destruct R0, w0; cbn; rewrite ?Hlaw; reflexivity.
Qed.
Lemma cg_rhs_after_init (args : @LinearLeastSquares.obj arr ops)
    (fuel : nat) :
  zero_scale_law ->
  selected_name args = "ConjugateGradient" ->
  LinearLeastSquares.proxg args = None ->
  snd (LinearLeastSquares.new args) = Val tt
  /\ exists (s1 : @LinearLeastSquares.obj arr ops)
            (o : @ConjugateGradient.obj arr) (l : nat),
       LinearLeastSquares._init fuel (fst (LinearLeastSquares.new args))
       = (s1, Val tt)
       /\ LinearLeastSquares.alg s1 = Some (LinearLeastSquares.CG o)
       /\ ConjugateGradient.A o
          = apply (LinearLeastSquares.normal_operator args)
       /\ ConjugateGradient.b o = Some (Some l)
       /\ ConjugateGradient.mem o !! l = Some (normal_rhs args).
Proof.
  intros Hlaw.
  destruct args as [A0 y0 x0 pg0 la0 G0 g0 R0 w0 mu0 z0 an0 mi0 P0 al0 mp0
                    ac0 tau0 sg0 sv0 alg0 ov0].
  unfold selected_name, normal_rhs, weighted. cbn. intros Hn Hp. subst.
  destruct an0 as [n|]; [subst n|]; sig_eval;
    (split; [reflexivity|]);
    destruct (Reqb mu0 0) eqn:Em; sig_eval;
    rewrite ?lookup_insert_eq; sig_eval;
    destruct sv0; sig_eval;
    (eexists; eexists; eexists;
     split; [reflexivity|]; split; [reflexivity|]; split; [reflexivity|];
     split; [reflexivity|]; cbn;
     rewrite lookup_insert_eq;
     try (apply Reqb_true in Em; subst mu0; rewrite Hlaw); reflexivity).
Qed.

(** On the conjugate-gradient path the operator handed to the
    algorithm acts as [A.H W A + lamda R.H R + mu I], and after [_init]
    the array [alg.b] holds the right-hand side [A.H (W y) + mu z].
    Which array that is depends on what [A.H] returns, and is left
    open. *)
Theorem lls_normal_equations (args : @LinearLeastSquares.obj arr ops)
    (fuel : nat) :
  zero_scale_law ->
  selected_name args = "ConjugateGradient" ->
  LinearLeastSquares.proxg args = None ->
  snd (LinearLeastSquares.new args) = Val tt
  /\ exists (s1 : @LinearLeastSquares.obj arr ops)
            (o : @ConjugateGradient.obj arr) (l : nat),
       LinearLeastSquares._init fuel (fst (LinearLeastSquares.new args))
       = (s1, Val tt)
       /\ LinearLeastSquares.alg s1 = Some (LinearLeastSquares.CG o)
       /\ (forall v : arr, ConjugateGradient.A o v = normal_lhs args v)
       /\ ConjugateGradient.b o = Some (Some l)
       /\ ConjugateGradient.mem o !! l = Some (normal_rhs args).
Proof.
  intros Hlaw Hn Hp.
  destruct (cg_rhs_after_init args fuel Hlaw Hn Hp)
    as (Hnew & s1 & o & l & Hi & Ha & HA & Hb & Hr).
  split; [exact Hnew|]. exists s1, o, l.
  split; [exact Hi|]. split; [exact Ha|].
  split; [|split; assumption].
  intros v. rewrite HA. apply normal_operator_apply. exact Hlaw.
Qed.
End NormalEquations.

Lemma vec2_zero_scale : zero_scale_law (arr := R * R).
Proof.
  intros [a1 a2] [b1 b2]. cbn. f_equal; lra.
Qed.

Lemma lls_normal_equations_witness :
  snd (LinearLeastSquares.new (lls_args None None None None None false))
  = Val tt.
Proof.
  exact (proj1 (lls_normal_equations
                  (lls_args None None None None None false) 1
                  vec2_zero_scale eq_refl eq_refl)).
Defined.

(** ** A run of the least-squares application *)

Section LeastSquaresRun.
Context {arr : Type} {ops : ArrayOps arr} {operators : OperatorOps arr}.

(** With [proxg] but without [g], and with [save_objective_values] set,
    the application is built without an error; the error of [objective]
    comes out of [run], from the first [_summarize], after the first
    update of the algorithm has been made and with the buffers of the
    algorithm still in place. *)
Theorem lls_missing_g_fails_after_first_update
    (args : @LinearLeastSquares.obj arr ops) (pg : Prox arr) (a : R)
    (fuel : nat) :
  LinearLeastSquares.alg_name args = None ->
  LinearLeastSquares.proxg args = Some pg ->
  LinearLeastSquares.G args = None ->
  LinearLeastSquares.g args = None ->
  LinearLeastSquares.save_objective_values args = true ->
  LinearLeastSquares.alpha args = Some a ->
  (0 < LinearLeastSquares.max_iter args)%Z ->
  snd (LinearLeastSquares.new args) = Val tt
  /\ exists (s' : @LinearLeastSquares.obj arr ops)
            (o : @GradientMethod.obj arr),
       LinearLeastSquares.run (Datatypes.S fuel)
         (fst (LinearLeastSquares.new args))
       = (s', Exn (ValueError
            "Cannot compute objective when proxg is specified,but g is not."))
       /\ LinearLeastSquares.alg s' = Some (LinearLeastSquares.GM o)
       /\ GradientMethod.iter o = Some 1%Z
       /\ is_Some (GradientMethod.x_old o)
       /\ LinearLeastSquares.objective_values s' = Some [].
Proof.
  destruct args as [A0 y0 x0 pg0 la0 G0 g0 R0 w0 mu0 z0 an0 mi0 P0 al0 mp0
                    ac0 tau0 sg0 sv0 alg0 ov0].
  cbn. intros -> -> -> -> -> -> Hmi.
  assert (Hle : (mi0 <=? 0)%Z = false) by (apply Z.leb_gt; exact Hmi).
  split; [reflexivity|].
  destruct ac0; sig_eval; rewrite Hle; sig_eval; cbn [is_zero]; sig_eval;
    (eexists; eexists; split; [reflexivity|]; cbn; repeat split; eauto).
Qed.
End LeastSquaresRun.

(** ** Methods called out of order *)

Section OutOfOrder.
Context {arr : Type} {ops : ArrayOps arr}.

(** [iter] and the buffers exist only once [init] has run.  On a new
    instance [done] raises [AttributeError] for [iter]; [update] of
    ConjugateGradient and PrimalDualHybridGradient, and of a
    GradientMethod that keeps [x_old], raises for the first buffer it
    reads and changes nothing; [update] of PowerMethod and of
    ProximalPointMethod makes its step first and raises only when it
    advances [iter]. *)
Theorem methods_before_init_raise :
  (forall (m : gmap nat arr) (A0 : arr -> arr) (b0 : option nat) (x0 : nat)
          (P0 : option (arr -> arr)) (mi : Z),
      let o := ConjugateGradient.new m A0 b0 x0 P0 mi in
      ConjugateGradient.done o = (o, Exn (AttributeError "iter"))
      /\ ConjugateGradient.update o = (o, Exn (AttributeError "p")))
  /\ (forall (gradf0 : arr -> arr) (x0 : arr) (al : option R)
             (pg : option (R -> arr -> arr)) (ac : bool) (mi : Z),
      let o := GradientMethod.new gradf0 x0 al pg ac mi in
      GradientMethod.done o = (o, Exn (AttributeError "iter"))
      /\ (GradientMethod.keeps_x_old o = true ->
          GradientMethod.update o = (o, Exn (AttributeError "x_old"))))
  /\ (forall (pfc pg : R -> arr -> arr) (A0 AH0 : arr -> arr) (x0 u0 : arr)
             (t sg : option R) (th : R) (gh : option (arr -> arr))
             (gp gd : R) (mi : Z),
      let o := PrimalDualHybridGradient.new pfc pg A0 AH0 x0 u0 t sg th gh
                 gp gd mi in
      PrimalDualHybridGradient.done o = (o, Exn (AttributeError "iter"))
      /\ PrimalDualHybridGradient.update o
         = (o, Exn (AttributeError "u_old")))
  /\ (forall (A0 : arr -> arr) (x0 : arr) (mi : Z),
      let o := PowerMethod.new A0 x0 mi in
      PowerMethod.done o = (o, Exn (AttributeError "iter"))
      /\ snd (PowerMethod.update o) = Exn (AttributeError "iter")
      /\ PowerMethod.max_eig (fst (PowerMethod.update o))
         = Some (norm (A0 x0)))
  /\ (forall (pf : R -> arr -> arr) (al : R) (x0 : arr) (mi : Z),
      let o := ProximalPointMethod.new pf al x0 mi in
      ProximalPointMethod.done o = (o, Exn (AttributeError "iter"))
      /\ ProximalPointMethod.update o
         = (ProximalPointMethod.set_x (pf al x0) o,
            Exn (AttributeError "iter"))).
Proof.
  repeat split.
  destruct ac; [reflexivity|].
  destruct pg; [reflexivity|discriminate].
Qed.

(** [cleanup] deletes attributes and so cannot be repeated: after a
    [cleanup] that returned, a second one raises [AttributeError] for the
    first attribute it deletes.  Only a GradientMethod with neither
    acceleration nor a proximal operator, which has nothing to delete,
    can be cleaned up again. *)
Theorem cleanup_twice_raises :
  (forall o o1 : @ConjugateGradient.obj arr,
      ConjugateGradient.cleanup o = (o1, Val tt) ->
      ConjugateGradient.cleanup o1 = (o1, Exn (AttributeError "r")))
  /\ (forall o o1 : @PrimalDualHybridGradient.obj arr,
      PrimalDualHybridGradient.cleanup o = (o1, Val tt) ->
      PrimalDualHybridGradient.cleanup o1
      = (o1, Exn (AttributeError "x_ext")))
  /\ (forall o o1 : @GradientMethod.obj arr,
      GradientMethod.cleanup o = (o1, Val tt) ->
      GradientMethod.cleanup o1
      = (o1, if GradientMethod.accelerate o
             then Exn (AttributeError "z")
             else if GradientMethod.keeps_x_old o
                  then Exn (AttributeError "x_old")
                  else Val tt)).
Proof.
  split; [|split].
  - intros o o1 Hc.
    destruct o as [m A0 P0 x0 b0 rz mi it r0 p0 zg rs al].
    destruct r0, p0, rz; sig_eval_in Hc; try discriminate Hc.
    inversion Hc. reflexivity.
  - intros o o1 Hc.
    destruct o as [pfc pg gh A0 AH0 u0 x0 tau0 sigma0 th0 gp gd mi it0 xe0
                   uo0 xo0 rs0].
    destruct xe0, uo0, xo0; sig_eval_in Hc; try discriminate Hc.
    inversion Hc. reflexivity.
  - intros o o1 Hc.
    destruct o as [gf al ac pg x0 mi it z0 t0 xo rs].
    destruct ac, pg, z0, t0, xo; sig_eval_in Hc; try discriminate Hc;
      inversion Hc; reflexivity.
Qed.
End OutOfOrder.

(** ** The gradient method *)

Section GradientMethodProps.
Context {arr : Type} {ops : ArrayOps arr}.
Import GradientMethod.

(** An accelerated update with a positive step size: the previous
    iterate is saved in [x_old], the gradient step is taken from the
    extrapolated point [z], followed by the proximal operator if there is
    one; the momentum parameter [t] becomes
    [(1 + (1 + 4 t^2) ** 0.5) / 2]; [z] is extrapolated from the new
    and the previous iterate with weight [(t - 1) / t_new], and the
    residual is the scaled distance between the two. *)
Theorem gm_accelerated_update (o : @obj arr) (zv xo : arr) (t0 a : R)
    (it : Z) :
  accelerate o = true -> z o = Some zv -> t o = Some t0 ->
  x_old o = Some xo -> alpha o = Some a -> iter o = Some it -> 0 < a ->
  let step := axpy zv (- a) (gradf o zv) in
  let xn := match proxg o with Some pg => pg a step | None => step end in
  let t1 := (1 + sqrt (1 + 4 * (t0 * t0))) / 2 in
  exists o' : @obj arr,
    update o = (o', Val tt)
    /\ x o' = xn /\ x_old o' = Some (x o) /\ t o' = Some t1
    /\ z o' = Some (vadd xn (vscale ((t0 - 1) / t1) (vsub xn (x o))))
    /\ resid o' = Some (Num (norm (vscale (/ sqrt a) (vsub xn (x o)))))
    /\ iter o' = Some (it + 1)%Z.
Proof.
  destruct o as [gf al ac pg x0 mi it0 z0 tt0 xo0 rs].
  cbn. intros -> -> -> -> -> -> Ha.
  apply Rltb_true in Ha.
  destruct pg as [pg|]; sig_eval; unfold step_resid; rewrite Ha;
    (eexists; split; [reflexivity|]; cbn; repeat split).
Qed.

End GradientMethodProps.

(** ** The gradient method on shared arrays *)

Section GradientMethodInPlaceProps.
Context {arr : Type} {ops : ArrayOps arr}.
Import GradientMethodInPlace.

Ltac gmi_eval :=
  lazy beta iota zeta delta
    [init update done cleanup _init _update _done _cleanup load store alloc
     call step keeps_x_old mem gradf alpha accelerate proxg x max_iter iter
     z t x_old resid set_mem set_iter set_z set_t set_x_old set_resid
     Alg.init Alg.update Alg.done Alg.cleanup bind getattr delattr get gets
     modify ret raise orb].

Ltac gmi_run :=
  repeat (gmi_eval;
          first [ rewrite lookup_insert_eq
                | rewrite lookup_insert_ne by congruence
                | match goal with H : _ = _ |- _ => rewrite H end ]);
  gmi_eval.

(** A plain update, without acceleration and without a proximal
    operator, adds [- alpha * gradf(x)] to the array [x] in place and
    then takes as residual the norm of the array that [gradf] returned,
    as it is after that step.  When [gradf] returned another array the
    residual is the norm of the gradient, and [done] holds afterwards if
    it is exactly zero; when [gradf] returned the array it was given,
    the residual is the norm of the updated [x], and it is that norm
    which [done] compares with zero. *)
Theorem gm_plain_update_in_place (o : @obj arr) (a : R) (it : Z)
    (m1 : gmap nat arr) (lg : nat) (xv gv : arr) :
  accelerate o = false -> proxg o = None -> alpha o = Some a ->
  iter o = Some it ->
  gradf o (mem o) (x o) = (m1, lg) ->
  m1 !! x o = Some xv -> m1 !! lg = Some gv ->
  exists o' : @obj arr,
    update o = (o', Val tt)
    /\ mem o' = <[x o := axpy xv (- a) gv]> m1
    /\ iter o' = Some (it + 1)%Z
    /\ x_old o' = x_old o /\ z o' = z o /\ t o' = t o
    /\ (lg <> x o ->
        resid o' = Some (Num (norm gv))
        /\ (norm gv = 0 -> done o' = (o', Val true)))
    /\ (lg = x o ->
        gv = xv /\ resid o' = Some (Num (norm (axpy xv (- a) xv)))
        /\ (norm (axpy xv (- a) xv) = 0 -> done o' = (o', Val true))).
Proof.
  destruct o as [m gf al ac pg x0 mi it0 z0 tt0 xo0 rs].
  cbn. intros -> -> -> -> Hg Hxv Hgv.
  destruct (decide (lg = x0)) as [Heq|Hne].
  - subst lg. assert (gv = xv) by congruence. subst gv. clear Hgv.
    gmi_run.
    eexists. split; [reflexivity|]. cbn.
    do 5 (split; [reflexivity|]).
    split; [intros Hc; congruence|].
    intros _. split; [reflexivity|]. split; [reflexivity|].
    intros Hz. gmi_eval.
    destruct (mi <=? it + 1)%Z; gmi_eval; [reflexivity|].
    rewrite is_zero_Num, (proj2 (Reqb_true _ _) Hz). reflexivity.
  - gmi_run.
    eexists. split; [reflexivity|]. cbn.
    do 5 (split; [reflexivity|]).
    split; [|intros Hc; congruence].
    intros _. split; [reflexivity|].
    intros Hz. gmi_eval.
    destruct (mi <=? it + 1)%Z; gmi_eval; [reflexivity|].
    rewrite is_zero_Num, (proj2 (Reqb_true _ _) Hz). reflexivity.
Qed.
End GradientMethodInPlaceProps.

(** ** Conjugate gradient: the last iteration and the search direction *)

Section ConjugateGradientSteps.
Context {arr : Type} {ops : ArrayOps arr}.
Import ConjugateGradient.

(** Evaluate up to the next lookup or test, then rewrite it with what is
    known. *)
Ltac cg_run :=
  repeat (sig_eval;
          first [ rewrite lookup_insert_eq
                | rewrite lookup_insert_ne by congruence
                | erewrite alloc_fresh by lookup_solve
                | match goal with H : _ = _ |- _ => rewrite H end ]);
  sig_eval.

(** In the last iteration, [iter >= max_iter - 1], an update with
    nonzero curvature moves [x] along [p] and nothing else: [r], [p] and
    [rzold] keep their values, so that the residual reported afterwards
    is the one from before the step. *)
Theorem cg_final_update (o : @obj arr) (lp : nat) (pv xv : arr) (q : R)
    (it : Z) :
  p o = Some lp -> mem o !! lp = Some pv -> mem o !! x o = Some xv ->
  rzold o = Some (Num q) -> 0 <= q -> iter o = Some it ->
  (max_iter o - 1 <= it)%Z -> dot pv (A o pv) <> 0 ->
  exists o' : @obj arr,
    update o = (o', Val tt)
    /\ mem o' = <[x o := axpy xv (q / dot pv (A o pv)) pv]> (mem o)
    /\ r o' = r o /\ p o' = p o /\ rzold o' = rzold o
    /\ alpha o' = Some (q / dot pv (A o pv))
    /\ resid o' = Some (pow_half q)
    /\ iter o' = Some (it + 1)%Z.
Proof.
  destruct o as [m A0 P0 x0 b0 rz mi it0 r0 p0 zg rs al].
  cbn. intros -> Hpv Hxv -> _ -> Hlast Hne.
  apply Reqb_false in Hne. apply Z.ltb_ge in Hlast.
  cg_run. eexists. split; [reflexivity|]. cbn. repeat split.
Qed.
(** Without a preconditioner [init] makes the search direction [p] a
    copy of the residual when [max_iter > 1], and the residual array
    itself, which is also the caller's [b], when [max_iter <= 1]. *)
Theorem cg_init_direction (m : gmap nat arr) (A0 : arr -> arr) (lb x0 : nat)
    (mi : Z) (bv xv : arr) :
  m !! lb = Some bv -> m !! x0 = Some xv ->
  exists o' : @obj arr,
    init (new m A0 (Some lb) x0 None mi) = (o', Val tt)
    /\ r o' = Some lb /\ b o' = Some (Some lb)
    /\ mem o' !! lb = Some (vsub bv (A0 xv))
    /\ rzold o'
       = Some (Num (dot (vsub bv (A0 xv)) (vsub bv (A0 xv))))
    /\ ((mi <= 1)%Z ->
        p o' = Some lb /\ mem o' = <[lb := vsub bv (A0 xv)]> m)
    /\ ((1 < mi)%Z ->
        exists lp : nat,
          p o' = Some lp /\ lp <> lb /\ m !! lp = None
          /\ mem o' !! lp = Some (vsub bv (A0 xv))).
Proof.
  intros Hbv Hxv.
  assert (Hfresh : forall w : arr,
             fresh (dom (<[lb := w]> m)) <> lb
             /\ m !! fresh (dom (<[lb := w]> m)) = None).
  { intros w.
    pose proof (is_fresh (dom (<[lb := w]> m))) as Hf.
    split.
    - intros Heq. apply Hf. rewrite Heq. apply elem_of_dom.
      exists w. apply lookup_insert_eq.
    - destruct (m !! fresh (dom (<[lb := w]> m))) as [v|] eqn:E;
        [|reflexivity].
      exfalso. apply Hf. apply elem_of_dom. exists v.
      rewrite lookup_insert_ne; [exact E|].
      intros Heq. apply Hf. rewrite <- Heq. apply elem_of_dom.
      exists w. apply lookup_insert_eq. }
  destruct (1 <? mi)%Z eqn:E.
  - cg_run. apply Z.ltb_lt in E.
    eexists. split; [reflexivity|]. cbn.
    destruct (Hfresh (vsub bv (A0 xv))) as [Hne Hnone].
    split; [reflexivity|]. split; [reflexivity|].
    split. { rewrite lookup_insert_ne by congruence. apply lookup_insert_eq. }
    split; [reflexivity|].
    split; [intros Hle; lia|].
    intros _. eexists. split; [reflexivity|].
    split; [exact Hne|]. split; [exact Hnone|]. apply lookup_insert_eq.
  - cg_run. apply Z.ltb_ge in E.
    eexists. split; [reflexivity|]. cbn.
    split; [reflexivity|]. split; [reflexivity|].
    split; [apply lookup_insert_eq|].
    split; [reflexivity|].
    split; [intros _; split; reflexivity|].
    intros Hlt. lia.
Qed.
End ConjugateGradientSteps.

(** ** The proximal point method under the harness *)

Section ProximalPointProps.
Context {arr : Type} {ops : ArrayOps arr}.
Import ProximalPointMethod.

Lemma ppm_loop (n : nat) :
  forall (fuel : nat) (o : @obj arr) (it : Z),
    iter o = Some it -> Z.to_nat (max_iter o - it) = n -> (n < fuel)%nat ->
    App.loop (Out := unit) App.base_hooks proximal_point_methods fuel o
    = (mk (proxf o) (alpha o) (Nat.iter n (proxf o (alpha o)) (x o))
          (max_iter o) (Some (Z.max it (max_iter o))), Val tt).
Proof.
  induction n as [|n IH]; intros fuel o it Hit Hn Hf.
  - destruct fuel as [|f]; [lia|].
    destruct o as [pf al x0 mi it0]. cbn in Hit, Hn. subst it0.
    rewrite (loop_done App.base_hooks proximal_point_methods f _
               (mk pf al x0 mi (Some it))).
    + cbn. rewrite Z.max_l by lia. reflexivity.
    + cbn. replace (mi <=? it)%Z with true
        by (symmetry; apply Z.leb_le; lia).
      reflexivity.
  - destruct fuel as [|f]; [lia|].
    destruct o as [pf al x0 mi it0]. cbn in Hit, Hn. subst it0.
    rewrite (loop_step App.base_hooks proximal_point_methods f
               (mk pf al x0 mi (Some it)) (mk pf al x0 mi (Some it))
               (mk pf al x0 mi (Some it))
               (mk pf al (pf al x0) mi (Some (it + 1)%Z))
               (mk pf al (pf al x0) mi (Some (it + 1)%Z))
               (mk pf al (pf al x0) mi (Some (it + 1)%Z)));
      try reflexivity.
    + rewrite (IH f (mk pf al (pf al x0) mi (Some (it + 1)%Z)) (it + 1)%Z
                 eq_refl); [|cbn; lia|lia].
      cbn [proxf alpha x max_iter]. rewrite Nat.iter_succ_r.
      f_equal. f_equal. f_equal. lia.
    + cbn. replace (mi <=? it)%Z with false
        by (symmetry; apply Z.leb_gt; lia).
      reflexivity.
Qed.

(** A run of the base harness over ProximalPointMethod applies [proxf]
    to [x] exactly [max_iter] times, not at all when [max_iter <= 0], and
    returns; the instance then holds the last iterate and
    [iter = max (0, max_iter)]. *)
Theorem ppm_run_iterates (pf : R -> arr -> arr) (al : R) (x0 : arr)
    (mi : Z) (fuel : nat) :
  (Z.to_nat mi < fuel)%nat ->
  App.run App.base_hooks proximal_point_methods fuel (new pf al x0 mi)
  = (mk pf al (Nat.iter (Z.to_nat mi) (pf al) x0) mi (Some (Z.max 0 mi)),
     Val tt).
Proof.
  intros Hf.
  rewrite (run_after_setup App.base_hooks proximal_point_methods fuel
             (new pf al x0 mi) (new pf al x0 mi)
             (mk pf al x0 mi (Some 0%Z)) eq_refl eq_refl).
  unfold App.run_from_loop.
  rewrite (bind_val _ _ _ _ _
             (ppm_loop (Z.to_nat mi) fuel (mk pf al x0 mi (Some 0%Z)) 0%Z
                eq_refl ltac:(cbn; f_equal; lia) Hf)).
  reflexivity.
Qed.
End ProximalPointProps.

(** ** Instances *)

Lemma lls_default_selection_witness :
  exists (s : LinearLeastSquares.obj) (o : ConjugateGradient.obj),
    LinearLeastSquares.new (lls_args None None None None None false)
    = (s, Val tt)
    /\ LinearLeastSquares.alg s = Some (LinearLeastSquares.CG o)
    /\ LinearLeastSquares.alg_name s = Some "ConjugateGradient".
Proof.
  apply (proj1 (lls_default_selection
                  (lls_args None None None None None false) eq_refl)).
  reflexivity.
Defined.

Lemma lls_conflicts_raise_witness :
  exists s : LinearLeastSquares.obj,
    LinearLeastSquares.new
      (lls_args (Some (fun _ v => v)) None None None
         (Some "ConjugateGradient") false)
    = (s, Exn (ValueError "ConjugateGradient cannot have proxg specified."))
    /\ LinearLeastSquares.alg s = None.
Proof.
  apply (proj1 (lls_conflicts_raise
                  (lls_args (Some (fun _ v => v)) None None None
                     (Some "ConjugateGradient") false))).
  - reflexivity.
  - cbn. discriminate.
Defined.

Lemma lls_assembly_succeeds_witness :
  exists (s : LinearLeastSquares.obj) (o : GradientMethod.obj),
    LinearLeastSquares.new
      (lls_args None None None None (Some "GradientMethod") false)
    = (s, Val tt)
    /\ LinearLeastSquares.alg s = Some (LinearLeastSquares.GM o).
Proof.
  apply (proj1 (proj2 (lls_assembly_succeeds
                         (lls_args None None None None
                            (Some "GradientMethod") false))));
    reflexivity.
Defined.

Lemma summarize_records_objective_witness :
  LinearLeastSquares._summarize lls_gm_state = (lls_gm_state, Val tt).
Proof.
  apply (proj1 (summarize_records_objective lls_gm_state)). reflexivity.
Defined.

Lemma lls_missing_g_fails_after_first_update_witness :
  snd (LinearLeastSquares.new
         (lls_args (Some (fun _ v => v)) None None None None true))
  = Val tt.
Proof.
  refine (proj1 (lls_missing_g_fails_after_first_update
                   (lls_args (Some (fun _ v => v)) None None None None true)
                   (fun _ v => v) 1 0%nat _ _ _ _ _ _ _));
    try reflexivity.
Defined.

Lemma max_eig_estimate_witness :
  exists (s' : MaxEig.obj) (xl : R * R),
    MaxEig.run 3 (MaxEig.new (Identity (ops := vec2_ops) tt) 2)
    = (s', Val (norm (apply (Identity (ops := vec2_ops) tt) xl)))
    /\ PowerMethod.iter (MaxEig.alg s') = Some 2%Z.
Proof.
  apply (proj1 (max_eig_estimate (Identity (ops := vec2_ops) tt) 2 3 ltac:(cbn; lia))).
  lia.
Defined.

Lemma l2cm_step_defaults_witness :
  exists (L : Linop (R * R)) (xl : R * R),
    L2ConstrainedMinimization.max_eig_app
      (L2ConstrainedMinimization.new (Identity (ops := vec2_ops) tt) (1, 2)
         (0, 0) (fun _ v => v) 1 None None 3 (Some 2) None 1)
    = MaxEig.new L 30
    /\ snd (MaxEig.run 31 (MaxEig.new L 30)) = Val (norm (apply L xl)).
Proof.
  destruct (proj1 (l2cm_step_defaults (Identity (ops := vec2_ops) tt) (1, 2)
                     (0, 0) (fun _ v => v) 1 None None 3 (Some 2) None 1 31
                     ltac:(lia)) (or_intror eq_refl))
    as (L & xl & HL & Hrun & _).
  exists L, xl. split; assumption.
Defined.

Lemma lls_init_gradient_step_witness :
  LinearLeastSquares._init 1 lls_gm_state = (lls_gm_state, Val tt).
Proof.
  exact (proj1 (lls_init_gradient_step lls_gm_state _ 1 eq_refl) 1 eq_refl).
Defined.


Lemma lls_primal_dual_gamma_dual_witness :
  exists (s : LinearLeastSquares.obj) (o : PrimalDualHybridGradient.obj),
    LinearLeastSquares.new
      (lls_args None None None None (Some "PrimalDualHybridGradient") false)
    = (s, Val tt)
    /\ LinearLeastSquares.alg s = Some (LinearLeastSquares.PDHG o)
    /\ PrimalDualHybridGradient.gamma_dual o = 1.
Proof.
  destruct (proj1 (lls_primal_dual_gamma_dual
                     (lls_args None None None None
                        (Some "PrimalDualHybridGradient") false)
                     eq_refl eq_refl) eq_refl)
    as (s & o & Hn & Ha & Hg & _).
  exists s, o. repeat split; assumption.
Defined.

Lemma pdhg_no_rebalancing_otherwise_witness :
  exists s' : PrimalDualHybridGradient.obj,
    PrimalDualHybridGradient.update (pdhg_example 1 1) = (s', Val tt)
    /\ PrimalDualHybridGradient.tau s' = Some 1
    /\ PrimalDualHybridGradient.sigma s' = Some 1.
Proof.
  destruct (pdhg_no_rebalancing_otherwise (pdhg_example 1 1) 1 1 0%Z (1, 1)
              (0, 0) (1, 1) eq_refl eq_refl eq_refl eq_refl eq_refl eq_refl)
    as (s' & Hu & _ & Ht & Hs & _).
  - lra.
  - lra.
  - cbn. intros [_ H]. lra.
  - cbn. intros [H _]. lra.
  - exists s'. repeat split; assumption.
Defined.

Lemma methods_before_init_raise_witness :
  GradientMethod.update gm_unstepped
  = (gm_unstepped, Exn (AttributeError "x_old")).
Proof.
  apply (proj2 (proj1 (proj2 methods_before_init_raise) (fun v => v) (1, 1)
                  None None true 10%Z)).
  reflexivity.
Defined.

Lemma cleanup_twice_raises_witness :
  ConjugateGradient.cleanup (fst (ConjugateGradient.cleanup cg_running))
  = (fst (ConjugateGradient.cleanup cg_running), Exn (AttributeError "r")).
Proof.
  apply (proj1 cleanup_twice_raises cg_running). reflexivity.
Defined.

Lemma gm_accelerated_update_witness :
  exists o' : GradientMethod.obj,
    GradientMethod.update gm_accelerated = (o', Val tt)
    /\ GradientMethod.t o' = Some ((1 + sqrt (1 + 4 * (1 * 1))) / 2)
    /\ GradientMethod.x_old o' = Some (1, 1).
Proof.
  destruct (gm_accelerated_update gm_accelerated (1, 1) (1, 1) 1 1 0%Z
              eq_refl eq_refl eq_refl eq_refl eq_refl eq_refl ltac:(lra))
    as (o' & Hu & _ & Hxo & Ht & _).
  exists o'. repeat split; assumption.
Defined.

Lemma cg_final_update_witness :
  exists o' : ConjugateGradient.obj,
    ConjugateGradient.update cg_last = (o', Val tt)
    /\ ConjugateGradient.r o' = Some 1%nat
    /\ ConjugateGradient.resid o' = Some (pow_half 5)
    /\ ConjugateGradient.iter o' = Some 5%Z.
Proof.
  destruct (cg_final_update cg_last 2%nat (1, 2) (0, 0) 5 4%Z eq_refl
              ltac:(vm_compute; reflexivity) ltac:(vm_compute; reflexivity)
              eq_refl ltac:(lra) eq_refl ltac:(cbn; lia) ltac:(cbn; lra))
    as (o' & Hu & _ & Hr & _ & _ & _ & Hrs & Hi).
  exists o'. repeat split; assumption.
Defined.

Lemma cg_init_direction_witness :
  exists o' : ConjugateGradient.obj,
    ConjugateGradient.init
      (ConjugateGradient.new (cg_store (0, 0) (1, 2) (0, 0)) (fun v => v)
         (Some 1%nat) 0%nat None 1)
    = (o', Val tt)
    /\ ConjugateGradient.r o' = Some 1%nat
    /\ ConjugateGradient.p o' = Some 1%nat.
Proof.
  destruct (cg_init_direction (cg_store (0, 0) (1, 2) (0, 0)) (fun v => v)
              1%nat 0%nat 1%Z (1, 2) (0, 0)
              ltac:(vm_compute; reflexivity) ltac:(vm_compute; reflexivity))
    as (o' & Hi & Hr & _ & _ & _ & Hp & _).
  exists o'. split; [exact Hi|]. split; [exact Hr|].
  apply Hp. lia.
Defined.


Lemma ppm_run_iterates_witness :
  App.run App.base_hooks proximal_point_methods 3
    (ProximalPointMethod.new (fun a v => vscale a v) 2 (1, 1) 2)
  = (ProximalPointMethod.mk (fun a v => vscale a v) 2
       (vscale 2 (vscale 2 (1, 1))) 2 (Some 2%Z), Val tt).
Proof.
  apply (ppm_run_iterates (fun a v => vscale a v) 2 (1, 1) 2 3).
  cbn. lia.
Defined.

Lemma gm_plain_update_in_place_witness :
  exists o' : GradientMethodInPlace.obj,
    GradientMethodInPlace.update gm_in_place = (o', Val tt)
    /\ GradientMethodInPlace.resid o'
       = Some (Num (norm (axpy (1, 1) (- 1) (1, 1))))
    /\ GradientMethodInPlace.done o' = (o', Val true).
Proof.
  destruct (gm_plain_update_in_place gm_in_place 1 0%Z {[ 0%nat := (1, 1) ]}
              0%nat (1, 1) (1, 1) eq_refl eq_refl eq_refl eq_refl eq_refl
              ltac:(vm_compute; reflexivity) ltac:(vm_compute; reflexivity))
    as (o' & Hu & _ & _ & _ & _ & _ & _ & Hsame).
  destruct (Hsame eq_refl) as (_ & Hr & Hd).
  exists o'. split; [exact Hu|]. split; [exact Hr|].
  apply Hd. cbn.
  replace ((1 + - (1) * 1) * (1 + - (1) * 1) + (1 + - (1) * 1) * (1 + - (1) * 1))
    with 0 by lra.
  apply sqrt_0.
Defined.
